(** * Verification of the installation-patching subsystem

    Shallow embedding of [patch_cursor_get_machine_id.py]: the regular
    expressions it hands to [re.match] and [re.sub], the version policy,
    the installation locator, the backup and patch operations on a disk
    model, and the orchestrator.

    Modelling conventions.
    - A Python [str] is the list of its characters.  Characters are code
      points below 256, so [\d] is exactly [0-9] and every character the
      patterns mention is a single element.
    - A file holds bytes.  [read_text] is [open(p, "r",
      encoding="utf-8").read()]: it raises [UnicodeDecodeError] on bytes
      that are not well-formed UTF-8 and turns every line ending into a
      line feed.  The text it returns is kept in its UTF-8 encoding.  The
      two rules of [modify_main_js] mention ASCII characters only, and no
      byte of a multi-byte UTF-8 sequence is an ASCII byte, so on the
      encoding they match and rewrite exactly where they do on the
      characters.  [tmp_file_write] is the text-mode [write]: line feeds
      become [os.linesep] and the text is encoded for the locale, which
      the host answers.
    - The disk is a finite map from paths to regular files.  Directories
      are not in the map: every path the module hands to a file operation
      names a regular file or nothing, and the one directory it tests, the
      Windows base, is answered by the host.
    - A file operation fails when the file it reads is absent, when its
      bytes do not decode or its text does not encode, and [os.chown] when
      the kernel refuses the change of owner; the permission bits of
      directories are outside the model.
    - Python integers are unbounded ([Z]); [int] refuses a literal of more
      than 4300 digits, the interpreter's default limit. *)

From Stdlib Require Import ZArith Ascii String List Lia Bool.
From stdpp Require Import base option gmap strings list.

Open Scope char_scope.
Open Scope list_scope.

Abbreviation text := (list ascii).
Abbreviation str := list_ascii_of_string.

(** ** A backtracking matcher for the fragment of [re] the module uses *)

Module Re.

(** Character sets: a literal (possibly escaped) character, a negated
    class [[^...]], and [\d]. *)
Inductive cset :=
| Chr (c : ascii)
| NotOf (cs : list ascii)
| Digit.

Definition is_digit (c : ascii) : bool :=
  (48 <=? nat_of_ascii c)%nat && (nat_of_ascii c <=? 57)%nat.

Definition cset_mem (k : cset) (c : ascii) : bool :=
  match k with
  | Chr d => Ascii.eqb d c
  | NotOf cs => negb (existsb (Ascii.eqb c) cs)
  | Digit => is_digit c
  end.

(** Pattern items: one character, a greedy [+], a capturing group around a
    greedy [+], and the assertions [^] and [$]. *)
Inductive item :=
| One (k : cset)
| Many1 (k : cset)
| Group1 (k : cset)
| Bos
| Eos.

Definition pattern := list item.

(** [k+], greedy with backtracking: the longer match is tried first, and
    the continuation is retried on each shorter one.  [acc] is the text
    consumed so far. *)
Fixpoint many1 {R} (k : cset) (cont : text -> text -> option R)
    (acc s : text) : option R :=
  match s with
  | c :: s' =>
      if cset_mem k c then
        match many1 k cont (acc ++ [c]) s' with
        | Some r => Some r
        | None => cont (acc ++ [c]) s'
        end
      else None
  | [] => None
  end.

(** Match [p] at the head of [s].  [bos] tells whether the head of [s] is
    position 0 of the subject; [caps] are the groups captured so far.  The
    result is the captured groups and the unconsumed rest. *)
Fixpoint match_here (p : pattern) (bos : bool) (caps : list text) (s : text)
    : option (list text * text) :=
  match p with
  | [] => Some (caps, s)
  | One k :: p' =>
      match s with
      | c :: s' => if cset_mem k c then match_here p' false caps s' else None
      | [] => None
      end
  | Many1 k :: p' => many1 k (fun _ rest => match_here p' false caps rest) [] s
  | Group1 k :: p' =>
      many1 k (fun w rest => match_here p' false (caps ++ [w]) rest) [] s
  | Bos :: p' => if bos then match_here p' bos caps s else None
  | Eos :: p' =>
      match s with
      | [] => match_here p' bos caps s
      | [c] => if Ascii.eqb c "010" then match_here p' bos caps s else None
      | _ => None
      end
  end.

(** [re.match(p, s)]: a match anchored at position 0, as a truth value. *)
Definition re_match (p : pattern) (s : text) : bool :=
  match match_here p true [] s with Some _ => true | None => false end.

(** Replacement templates: literal characters and group references. *)
Inductive tpart :=
| TLit (c : ascii)
| TGroup (n : nat).

Definition expand (tpl : list tpart) (caps : list text) : text :=
  flat_map (fun t => match t with
                     | TLit c => [c]
                     | TGroup n => default [] (caps !! (n - 1)%nat)
                     end) tpl.

(** The scan of [re.sub]: leftmost matches, not overlapping.  [skip] counts
    the characters of the current match still to be dropped. *)
Fixpoint sub_scan (p : pattern) (tpl : list tpart) (bos : bool) (skip : nat)
    (s : text) : text :=
  match s with
  | [] =>
      match skip with
      | O => match match_here p bos [] [] with
             | Some (caps, _) => expand tpl caps
             | None => []
             end
      | S _ => []
      end
  | c :: s' =>
      match skip with
      | S n => sub_scan p tpl false n s'
      | O =>
          match match_here p bos [] s with
          | Some (caps, rest) =>
              match (length s - length rest)%nat with
              | O => expand tpl caps ++ c :: sub_scan p tpl false 0 s'
              | S m => expand tpl caps ++ sub_scan p tpl false m s'
              end
          | None => c :: sub_scan p tpl false 0 s'
          end
      end
  end.

Definition re_sub (p : pattern) (tpl : list tpart) (s : text) : text :=
  sub_scan p tpl true 0 s.

(** Literal runs of a pattern and of a template. *)
Definition lits (s : string) : pattern := map (fun c => One (Chr c)) (str s).
Definition tlits (s : string) : list tpart := map TLit (str s).

(** *** Words of a pattern

    The words a pattern can consume, read off its syntax; the two
    assertions consume nothing. *)
Inductive item_word : item -> text -> Prop :=
| iw_one k c : cset_mem k c = true -> item_word (One k) [c]
| iw_many k w : w <> [] -> Forall (fun c => cset_mem k c = true) w ->
    item_word (Many1 k) w
| iw_group k w : w <> [] -> Forall (fun c => cset_mem k c = true) w ->
    item_word (Group1 k) w
| iw_bos : item_word Bos []
| iw_eos : item_word Eos [].

Inductive pat_word : pattern -> text -> Prop :=
| pw_nil : pat_word [] []
| pw_cons i p w w' : item_word i w -> pat_word p w' -> pat_word (i :: p) (w ++ w').

(** Whether a pattern uses the assertion [^]. *)
Definition uses_bos (p : pattern) : bool :=
  existsb (fun i => match i with Bos => true | _ => false end) p.


(** [occurs p t]: some word of [p] is a factor of [t]. *)
Definition occurs (p : pattern) (t : text) : Prop :=
  exists pre w post, t = pre ++ w ++ post /\ pat_word p w.

End Re.

(** ** The patch rules *)

Definition getMachineId_pattern : Re.pattern :=
  Re.lits "async getMachineId(){return "
  ++ [Re.Many1 (Re.NotOf ["?"; "?"]); Re.One (Re.Chr "?"); Re.One (Re.Chr "?");
      Re.Group1 (Re.NotOf ["}"]); Re.One (Re.Chr "}")].

Definition getMachineId_replacement : list Re.tpart :=
  Re.tlits "async getMachineId(){return " ++ [Re.TGroup 1] ++ Re.tlits "}".

Definition getMacMachineId_pattern : Re.pattern :=
  Re.lits "async getMacMachineId(){return "
  ++ [Re.Many1 (Re.NotOf ["?"; "?"]); Re.One (Re.Chr "?"); Re.One (Re.Chr "?");
      Re.Group1 (Re.NotOf ["}"]); Re.One (Re.Chr "}")].

Definition getMacMachineId_replacement : list Re.tpart :=
  Re.tlits "async getMacMachineId(){return " ++ [Re.TGroup 1] ++ Re.tlits "}".

(** The [patterns] dictionary of [modify_main_js], in insertion order. *)
Definition patterns : list (Re.pattern * list Re.tpart) :=
  [(getMachineId_pattern, getMachineId_replacement);
   (getMacMachineId_pattern, getMacMachineId_replacement)].

(** The loop [for pattern, replacement in patterns.items(): content =
    re.sub(pattern, replacement, content)]. *)
Definition patch_content (content : text) : text :=
  fold_left (fun c pr => Re.re_sub (fst pr) (snd pr) c) patterns content.

(** ** Version strings *)

(** The pattern [^\d+\.\d+\.\d+$] of [version_check]. *)
Definition version_pattern : Re.pattern :=
  [Re.Bos; Re.Many1 Re.Digit; Re.One (Re.Chr "."); Re.Many1 Re.Digit;
   Re.One (Re.Chr "."); Re.Many1 Re.Digit; Re.Eos].

(** [s.split(sep)] for a one-character separator. *)
Fixpoint split (sep : ascii) (s : text) : list text :=
  match s with
  | [] => [[]]
  | c :: s' =>
      if Ascii.eqb c sep then [] :: split sep s'
      else match split sep s' with
           | piece :: pieces => (c :: piece) :: pieces
           | [] => [[c]]
           end
  end.

(** The whitespace [int] skips around a literal: the ASCII blanks, and the
    two blanks above 127, which [int] first turns into a space. *)
Definition int_space (c : ascii) : bool :=
  existsb (Nat.eqb (nat_of_ascii c)) [9; 10; 11; 12; 13; 32; 133; 160]%nat.

Fixpoint skip_space (s : text) : text :=
  match s with
  | c :: s' => if int_space c then skip_space s' else s
  | [] => []
  end.

Definition digit_value (c : ascii) : Z := Z.of_nat (nat_of_ascii c) - 48.

(** The digit loop of [int]: digits with single underscores between them.
    [prev_us] tells whether the previous character was an underscore.  The
    loop stops at the first character that is neither. *)
Fixpoint int_digits (acc : Z) (prev_us : bool) (s : text) : option (Z * text) :=
  match s with
  | c :: s' =>
      if Re.is_digit c then int_digits (10 * acc + digit_value c) false s'
      else if Ascii.eqb c "_" then
        if prev_us then None else int_digits acc true s'
      else if prev_us then None else Some (acc, s)
  | [] => if prev_us then None else Some (acc, [])
  end.

Definition int_unsigned (s : text) : option Z :=
  match s with
  | c :: _ =>
      if Re.is_digit c then
        match int_digits 0 false s with
        | Some (n, rest) =>
            match skip_space rest with [] => Some n | _ :: _ => None end
        | None => None
        end
      else None
  | [] => None
  end.

(** The integer a base-10 literal denotes; [None] when the text is not a
    literal. *)
Definition int_literal (s : text) : option Z :=
  match skip_space s with
  | c :: s' =>
      if Ascii.eqb c "+" then int_unsigned s'
      else if Ascii.eqb c "-" then Z.opp <$> int_unsigned s'
      else int_unsigned (c :: s')
  | [] => int_unsigned []
  end.

(** [sys.get_int_max_str_digits()], which the module leaves at its
    default. *)
Definition int_max_str_digits : nat := 4300.

(** The digits of a text; sign, underscores and blanks do not count. *)
Definition digit_count (s : text) : nat := length (List.filter Re.is_digit s).

(** [int(s)] in base 10; [None] stands for [ValueError], which a text
    that is not a literal and a literal of too many digits both raise. *)
Definition int (s : text) : option Z :=
  if (int_max_str_digits <? digit_count s)%nat then None else int_literal s.

(** [tuple(map(int, ver.split(".")))]; [None] stands for [ValueError]. *)
Definition parse_version (ver : text) : option (list Z) :=
  mapM int (split "." ver).

(** [a < b] on tuples of integers. *)
Fixpoint tuple_lt (a b : list Z) : bool :=
  match a, b with
  | [], [] => false
  | [], _ :: _ => true
  | _ :: _, [] => false
  | x :: a', y :: b' => if (x =? y)%Z then tuple_lt a' b' else (x <? y)%Z
  end.

(** ** The host, the disk and the log *)

Record file := File { f_data : text; f_mode : Z; f_uid : Z; f_gid : Z }.

(** What [json.load(f)["version"]] can yield. *)
Inductive pyvalue :=
| PyStr (s : text)
| PyOther.

Inductive exn :=
| OSError (msg : text)
| FileNotFoundError (path : text)
| ValueError
| TypeError
| DecodeError
| EOFError
| PermissionError (path : text)
| UnicodeDecodeError
| UnicodeEncodeError.

Inductive level := INFO | ERROR.

(** One constructor per call of the module's [logger], with the values
    its message interpolates. *)
Inductive message :=
| File_does_not_exist (path : text)
| No_file_write_permission (path : text)
| Invalid_version_number_format (version : text)
| Version_less_than_minimum (version min_version : text)
| Version_greater_than_maximum (version max_version : text)
| Version_check_failed (e : exn)
| File_modification_successful
| Error_modifying_file (e : exn)
| Backed_up_main_js (backup_main : text)
| File_backup_failed (e : exn)
| Restored_main_js
| Backup_file_not_found
| Failed_to_restore_backup (e : exn)
| Starting_script_execution
| Backup_restore_completed
| Backup_restore_failed
| Current_Cursor_version (version : pyvalue)
| Failed_to_read_version_number (e : exn)
| Version_does_not_meet_requirements
| Version_check_passed
| File_backup_failed_terminating
| Script_execution_completed
| Error_occurred_during_execution (e : exn).

(** The part of the machine the module only reads.  [nt_join] is
    [ntpath.join]; [access_W_OK] is the kernel's answer to
    [os.access(path, os.W_OK)] for an existing file; [dir_exists] answers
    [os.path.exists] for the Windows base directory; [json_version] is
    [json.load(f)["version"]] on the bytes of the manifest, [None] when it
    raises; [stdin_eof] tells whether [input()] raises [EOFError]; [euid],
    [egid] and [groups] are the identity of the process, [groups] being
    [os.getgroups()]; [locale_encode] encodes a text, given in UTF-8, in
    the preferred encoding of the locale, [None] when that raises (it is
    [Some] in a UTF-8 locale). *)
Record host := Host {
  platform_system : text;
  os_name : text;
  getenv : text -> option text;
  nt_join : text -> text -> text;
  access_W_OK : text -> file -> bool;
  dir_exists : text -> bool;
  json_version : text -> option pyvalue;
  stdin_eof : bool;
  euid : Z;
  egid : Z;
  groups : list Z;
  locale_encode : text -> option text
}.

(** The mutable state: regular files by path, the temporary file of
    [modify_main_js] (which lives under a fresh name in the temporary
    directory), and the log, oldest record first. *)
Record world := World {
  disk : gmap text file;
  tmp : option file;
  log : list (level * message)
}.

Definition set_disk (d : gmap text file) (w : world) : world :=
  World d (tmp w) (log w).
Definition set_tmp (t : option file) (w : world) : world :=
  World (disk w) t (log w).
Definition add_log (r : level * message) (w : world) : world :=
  World (disk w) (tmp w) (log w ++ [r]).

(** ** Computations: state, exceptions and [sys.exit] *)

Inductive raised :=
| Exception (e : exn)
| SystemExit (code : Z).

Definition M (A : Type) : Type := world -> (A + raised) * world.

Global Instance M_ret : MRet M := fun A a w => (inl a, w).
Global Instance M_bind : MBind M := fun A B f m w =>
  match m w with
  | (inl a, w') => f a w'
  | (inr r, w') => (inr r, w')
  end.

Definition raise {A} (e : exn) : M A := fun w => (inr (Exception e), w).
Definition sys_exit {A} (code : Z) : M A := fun w => (inr (SystemExit code), w).

(** [try: body except Exception as e: handler e].  [SystemExit] is not an
    [Exception] and passes through. *)
Definition try_except {A} (body : M A) (handler : exn -> M A) : M A := fun w =>
  match body w with
  | (inr (Exception e), w') => handler e w'
  | r => r
  end.

Definition logger_info (m : message) : M unit := fun w => (inl tt, add_log (INFO, m) w).
Definition logger_error (m : message) : M unit := fun w => (inl tt, add_log (ERROR, m) w).

Definition from_option {A} (e : exn) (o : option A) : M A :=
  match o with Some a => mret a | None => raise e end.

(** ** Text files

    What the text layer of [open] does between the bytes of a file and the
    text the program sees. *)

Definition continuation (c : ascii) : bool :=
  (128 <=? nat_of_ascii c)%nat && (nat_of_ascii c <=? 191)%nat.

Definition between (lo hi : nat) (c : ascii) : bool :=
  (lo <=? nat_of_ascii c)%nat && (nat_of_ascii c <=? hi)%nat.

(** Well-formed UTF-8, as the strict decoder accepts it: no stray
    continuation byte, no overlong form, no surrogate, nothing above
    U+10FFFF. *)
Fixpoint utf8_valid (b : text) : bool :=
  match b with
  | [] => true
  | c0 :: b1 =>
      if (nat_of_ascii c0 <? 128)%nat then utf8_valid b1
      else
        match b1 with
        | [] => false
        | c1 :: b2 =>
            if between 194 223 c0 then continuation c1 && utf8_valid b2
            else
              match b2 with
              | [] => false
              | c2 :: b3 =>
                  if between 224 239 c0 then
                    (if between 224 224 c0 then between 160 191 c1
                     else if between 237 237 c0 then between 128 159 c1
                     else continuation c1)
                    && continuation c2 && utf8_valid b3
                  else
                    match b3 with
                    | [] => false
                    | c3 :: b4 =>
                        between 240 244 c0
                        && (if between 240 240 c0 then between 144 191 c1
                            else if between 244 244 c0 then between 128 143 c1
                            else continuation c1)
                        && continuation c2 && continuation c3 && utf8_valid b4
                    end
              end
        end
  end.

(** Universal newlines on input: [\r\n] and a lone [\r] become [\n]. *)
Fixpoint universal_newlines (s : text) : text :=
  match s with
  | [] => []
  | c :: s' =>
      if Ascii.eqb c "013" then
        match s' with
        | d :: s'' =>
            if Ascii.eqb d "010" then "010" :: universal_newlines s''
            else "010" :: universal_newlines s'
        | [] => ["010"]
        end
      else c :: universal_newlines s'
  end.

(** [bytes.decode("utf-8")] followed by the translation of line endings;
    [None] stands for [UnicodeDecodeError]. *)
Definition decode_text (b : text) : option text :=
  if utf8_valid b then Some (universal_newlines b) else None.

(** The translation of line feeds on output. *)
Definition translate_newlines (linesep : text) (s : text) : text :=
  flat_map (fun c => if Ascii.eqb c "010" then linesep else [c]) s.

Section Patcher.

Context (h : host).

(** ** Library calls on the world *)

(** [posixpath.join] of two components. *)
Definition posix_join (a b : text) : text :=
  if bool_decide (head b = Some "/") then b
  else
    match a with
    | [] => b
    | _ :: _ =>
        if bool_decide (last a = Some "/") then a ++ b else a ++ "/" :: b
    end.

(** [os.path.join] is [ntpath.join] where [os.name] is ["nt"], and
    [posixpath.join] elsewhere. *)
Definition os_path_join (a b : text) : text :=
  if bool_decide (os_name h = str "nt") then nt_join h a b else posix_join a b.

Definition os_path_isfile (p : text) : M bool := fun w =>
  (inl (bool_decide (is_Some (disk w !! p))), w).

Definition os_path_exists (p : text) : M bool := os_path_isfile p.

Definition os_access_W_OK (p : text) : M bool := fun w =>
  (inl (match disk w !! p with Some f => access_W_OK h p f | None => false end), w).

Definition os_stat (p : text) : M file := fun w =>
  match disk w !! p with
  | Some f => (inl f, w)
  | None => (inr (Exception (FileNotFoundError p)), w)
  end.

(** The bytes of a file that [open(p, "r", ...)] opens. *)
Definition read_bytes (p : text) : M text := f ← os_stat p; mret (f_data f).

(** [open(p, "r", encoding="utf-8").read()]. *)
Definition read_text (p : text) : M text :=
  b ← read_bytes p;
  match decode_text b with
  | Some content => mret content
  | None => raise UnicodeDecodeError
  end.

(** [os.linesep]. *)
Definition os_linesep : text :=
  if bool_decide (os_name h = str "nt") then ["013"; "010"] else ["010"].

(** The bytes a text-mode [write] of [content] puts in a file opened with
    neither [encoding] nor [newline]; [None] stands for
    [UnicodeEncodeError]. *)
Definition encode_text (content : text) : option text :=
  locale_encode h (translate_newlines os_linesep content).

(** [shutil.copy2(src, dst)]: content and permission bits are copied; a new
    file belongs to the process, an overwritten one keeps its owner. *)
Definition shutil_copy2 (src dst : text) : M unit := fun w =>
  match disk w !! src with
  | None => (inr (Exception (FileNotFoundError src)), w)
  | Some f =>
      if bool_decide (src = dst) then
        (inr (Exception (OSError (src ++ str " and " ++ dst ++ str " are the same file"))), w)
      else
        let g := match disk w !! dst with
                 | Some old => File (f_data f) (f_mode f) (f_uid old) (f_gid old)
                 | None => File (f_data f) (f_mode f) (euid h) (egid h)
                 end in
        (inl tt, set_disk (<[dst := g]> (disk w)) w)
  end.

(** [tempfile.NamedTemporaryFile(mode="w", delete=False)]: an empty file of
    mode 0600 owned by the process. *)
Definition NamedTemporaryFile : M unit := fun w =>
  (inl tt, set_tmp (Some (File [] 384 (euid h) (egid h))) w).

(** [tmp_file.write(content)], the bytes reaching the file when the [with]
    block closes it. *)
Definition tmp_file_write (content : text) : M unit := fun w =>
  match tmp w with
  | Some t =>
      match encode_text content with
      | Some b => (inl tt, set_tmp (Some (File b (f_mode t) (f_uid t) (f_gid t))) w)
      | None => (inr (Exception UnicodeEncodeError), w)
      end
  | None => (inr (Exception (FileNotFoundError (str "<tmp>"))), w)
  end.

(** [shutil.move(tmp_path, dst)], with the temporary directory on the file
    system of [dst]: a rename, the temporary file replaces whatever [dst]
    named. *)
Definition shutil_move_tmp (dst : text) : M unit := fun w =>
  match tmp w with
  | Some t => (inl tt, set_tmp None (set_disk (<[dst := t]> (disk w)) w))
  | None => (inr (Exception (FileNotFoundError (str "<tmp>"))), w)
  end.

(** [os.unlink(tmp_path)]. *)
Definition os_unlink_tmp : M unit := fun w =>
  match tmp w with
  | Some _ => (inl tt, set_tmp None w)
  | None => (inr (Exception (FileNotFoundError (str "<tmp>"))), w)
  end.

Definition os_chmod (p : text) (mode : Z) : M unit := fun w =>
  match disk w !! p with
  | Some f => (inl tt, set_disk (<[p := File (f_data f) mode (f_uid f) (f_gid f)]> (disk w)) w)
  | None => (inr (Exception (FileNotFoundError p)), w)
  end.

(** Whether the kernel lets the process give [f] to [uid] and [gid]: the
    superuser may; the owner may keep the owner and pick the file's group
    or one of its own groups. *)
Definition chown_permitted (f : file) (uid gid : Z) : bool :=
  bool_decide (euid h = 0%Z)
  || (bool_decide (f_uid f = euid h) && bool_decide (uid = f_uid f)
      && (bool_decide (gid = f_gid f) || bool_decide (gid = egid h)
          || bool_decide (gid ∈ groups h))).

Definition os_chown (p : text) (uid gid : Z) : M unit := fun w =>
  match disk w !! p with
  | Some f =>
      if chown_permitted f uid gid then
        (inl tt, set_disk (<[p := File (f_data f) (f_mode f) uid gid]> (disk w)) w)
      else (inr (Exception (PermissionError p)), w)
  | None => (inr (Exception (FileNotFoundError p)), w)
  end.

(** [input(...)]. *)
Definition input : M unit :=
  if stdin_eof h then raise EOFError else mret tt.

(** ** get_cursor_paths *)

Definition darwin_base : text := str "/Applications/Cursor.app/Contents/Resources/app".

Definition windows_base : text :=
  match getenv h (str "USERAPPPATH") with
  | Some (c :: s) => c :: s
  | _ =>
      fold_left os_path_join
        [str "Programs"; str "Cursor"; str "resources"; str "app"]
        (default [] (getenv h (str "LOCALAPPDATA")))
  end.

Definition linux_bases : list text :=
  [str "/opt/Cursor/resources/app"; str "/usr/share/cursor/resources/app"].

(** The loop over [paths_map["Linux"]["bases"]] and the [raise] after it. *)
Fixpoint search_bases (bases : list text) : M (text * text) :=
  match bases with
  | [] => raise (OSError (str "Cursor installation path not found on Linux system"))
  | base :: bases' =>
      let pkg_path := os_path_join base (str "package.json") in
      found ← os_path_exists pkg_path;
      if found : bool then mret (pkg_path, os_path_join base (str "out/main.js"))
      else search_bases bases'
  end.

(** The guidance of the Windows branch goes to the root logger with
    [logging.info], not to the module's [logger]: the log of the module
    does not see it. *)
Definition get_cursor_paths : M (text * text) :=
  let system := platform_system h in
  if negb (bool_decide (system ∈ [str "Darwin"; str "Windows"; str "Linux"])) then
    raise (OSError (str "Unsupported operating system: " ++ system))
  else if bool_decide (system = str "Linux") then search_bases linux_bases
  else
    let base_path :=
      if bool_decide (system = str "Darwin") then darwin_base else windows_base in
    (if bool_decide (system = str "Windows") then
       if negb (dir_exists h base_path) then input else mret tt
     else mret tt);;
    mret (os_path_join base_path (str "package.json"),
          os_path_join base_path (str "out/main.js")).

(** ** check_system_requirements *)

Fixpoint check_files (paths : list text) : M bool :=
  match paths with
  | [] => mret true
  | file_path :: paths' =>
      isfile ← os_path_isfile file_path;
      if negb isfile then logger_error (File_does_not_exist file_path);; mret false
      else
        writable ← os_access_W_OK file_path;
        if negb writable then
          logger_error (No_file_write_permission file_path);; mret false
        else check_files paths'
  end.

Definition check_system_requirements (pkg_path main_path : text) : M bool :=
  check_files [pkg_path; main_path].

(** ** version_check *)

(** Truth value of a [str]. *)
Definition truthy (s : text) : bool := match s with [] => false | _ :: _ => true end.

Definition version_check (version : pyvalue) (min_version max_version : text) : M bool :=
  try_except
    (match version with
     | PyOther => raise TypeError
     | PyStr version =>
         if negb (Re.re_match version_pattern version) then
           logger_error (Invalid_version_number_format version);; mret false
         else
           current ← from_option ValueError (parse_version version);
           below ← (if truthy min_version then
                      m ← from_option ValueError (parse_version min_version);
                      mret (tuple_lt current m)
                    else mret false);
           if below : bool then
             logger_error (Version_less_than_minimum version min_version);; mret false
           else
             above ← (if truthy max_version then
                        m ← from_option ValueError (parse_version max_version);
                        mret (tuple_lt m current)
                      else mret false);
             if above : bool then
               logger_error (Version_greater_than_maximum version max_version);;
               mret false
             else mret true
     end)
    (fun e => logger_error (Version_check_failed e);; mret false).

(** ** modify_main_js

    One [try] with one handler.  The handler unlinks the temporary file
    only when [tmp_path] is bound, which is the case from the last
    statement of the [with] block on; so the body is cut there, each part
    under the handler as it runs for it.  What the handler itself raises
    leaves the function: [os.unlink] does, when the temporary file has
    been moved already. *)
Definition modify_main_js (main_path : text) : M bool :=
  bound ← try_except
    (original_stat ← os_stat main_path;
     NamedTemporaryFile;;
     content ← read_text main_path;
     tmp_file_write (patch_content content);;
     mret (Some original_stat))
    (fun e => logger_error (Error_modifying_file e);; mret None);
  match bound with
  | None => mret false
  | Some original_stat =>
      try_except
        (shutil_copy2 main_path (main_path ++ str ".old");;
         shutil_move_tmp main_path;;
         os_chmod main_path (f_mode original_stat);;
         (if negb (bool_decide (os_name h = str "nt")) then
            os_chown main_path (f_uid original_stat) (f_gid original_stat)
          else mret tt);;
         logger_info File_modification_successful;;
         mret true)
        (fun e => logger_error (Error_modifying_file e);; os_unlink_tmp;; mret false)
  end.

(** ** backup_files and restore_backup_files *)

Definition backup_files (pkg_path main_path : text) : M bool :=
  try_except
    (present ← os_path_exists main_path;
     (if present : bool then
        let backup_main := main_path ++ str ".bak" in
        shutil_copy2 main_path backup_main;;
        logger_info (Backed_up_main_js backup_main)
      else mret tt);;
     mret true)
    (fun e => logger_error (File_backup_failed e);; mret false).

Definition restore_backup_files (pkg_path main_path : text) : M bool :=
  try_except
    (let backup_main := main_path ++ str ".bak" in
     present ← os_path_exists backup_main;
     if present : bool then
       shutil_copy2 backup_main main_path;;
       logger_info Restored_main_js;;
       mret true
     else
       logger_error Backup_file_not_found;;
       mret false)
    (fun e => logger_error (Failed_to_restore_backup e);; mret false).

(** ** patch_cursor_get_machine_id *)

(** The [try] block that reads the declared version. *)
Definition read_version (pkg_path : text) : M pyvalue :=
  try_except
    (manifest ← read_bytes pkg_path;
     version ← from_option DecodeError (json_version h manifest);
     logger_info (Current_Cursor_version version);;
     mret version)
    (fun e => logger_error (Failed_to_read_version_number e);; sys_exit 1).

(** The body of [if restore_mode:], up to its [return]. *)
Definition restore_steps (pkg_path main_path : text) : M unit :=
  restored ← restore_backup_files pkg_path main_path;
  if restored : bool then logger_info Backup_restore_completed
  else logger_error Backup_restore_failed.

(** The statements after the restore branch. *)
Definition patch_steps (pkg_path main_path : text) : M unit :=
  version ← read_version pkg_path;
  ok ← version_check version (str "0.45.0") [];
  (if negb ok then
     logger_error Version_does_not_meet_requirements;; sys_exit 1
   else mret tt);;
  logger_info Version_check_passed;;
  ok ← backup_files pkg_path main_path;
  (if negb ok then
     logger_error File_backup_failed_terminating;; sys_exit 1
   else mret tt);;
  ok ← modify_main_js main_path;
  (if negb ok then sys_exit 1 else mret tt);;
  logger_info Script_execution_completed.

(** The handler of the outer [try]. *)
Definition on_exception (e : exn) : M unit :=
  logger_error (Error_occurred_during_execution e);; sys_exit 1.

Definition patch_cursor_get_machine_id (restore_mode : bool) : M unit :=
  logger_info Starting_script_execution;;
  try_except
    ('(pkg_path, main_path) ← get_cursor_paths;
     ok ← check_system_requirements pkg_path main_path;
     (if negb ok then sys_exit 1 else mret tt);;
     if restore_mode then restore_steps pkg_path main_path
     else patch_steps pkg_path main_path)
    on_exception.

End Patcher.

(** The exit status of the process that runs a computation as its main
    program: 0 when it returns, the code of [sys.exit], 1 for an exception
    nobody caught. *)
Definition exit_status {A} (r : A + raised) : Z :=
  match r with
  | inl _ => 0
  | inr (SystemExit code) => code
  | inr (Exception _) => 1
  end.


(** ** Vocabulary of the statements *)

(** [more_log w l]: the world [w] with the records [l] added to its log. *)
Definition more_log (w : world) (l : list (level * message)) : world :=
  World (disk w) (tmp w) (log w ++ l).

(** A computation that only writes to the log: its result and the records
    it adds are the same in every world. *)
Definition logs_only {A} (m : M A) : Prop :=
  exists r l0, forall w, m w = (r, more_log w l0).

(** [s] without its prefix [p], when it has that prefix. *)
Fixpoint strip_prefix (p s : text) : option text :=
  match p, s with
  | [], _ => Some s
  | c :: p', d :: s' => if Ascii.eqb c d then strip_prefix p' s' else None
  | _ :: _, [] => None
  end.

(** Three decidable checks on a literal prefix [P] of a pattern and a known
    text [T], used to show that no match starts before or inside [T].
    [may_start P T]: [P] and [T] agree as far as both go.
    [never_starts P T]: [P] may start at no position of [T].
    [clear_before z P T]: reading [P] from a position before [T], one meets
    the character [z] before [T] begins, whatever comes first. *)
Fixpoint may_start (P T : text) : bool :=
  match P, T with
  | [], _ => true
  | _ :: _, [] => true
  | c :: P', d :: T' => Ascii.eqb c d && may_start P' T'
  end.

Fixpoint never_starts (P T : text) : bool :=
  match T with
  | [] => true
  | _ :: T' => negb (may_start P T) && never_starts P T'
  end.

Fixpoint clear_before (z : ascii) (P T : text) : bool :=
  match P with
  | [] => false
  | c :: P' =>
      if Ascii.eqb c z then true
      else negb (may_start P' T) && clear_before z P' T
  end.



(** A version string the pattern of [version_check] accepts. *)
Definition valid_version (s : text) : Prop :=
  Re.re_match version_pattern s = true.

(** The (major, minor, patch) triple a version string denotes, however
    long its numbers are. *)
Definition triple_of (s : text) : option (Z * Z * Z) :=
  match mapM int_literal (split "." s) with
  | Some [a; b; c] => Some (a, b, c)
  | _ => None
  end.

(** Whether every number of a dotted text has few enough digits for
    [int]. *)
Definition within_digit_limit (s : text) : bool :=
  forallb (fun piece => (digit_count piece <=? int_max_str_digits)%nat)
    (split "." s).

(** Lexicographic order on triples. *)
Definition triple_le (a b : Z * Z * Z) : Prop :=
  let '(a1, a2, a3) := a in
  let '(b1, b2, b3) := b in
  (a1 < b1 \/ (a1 = b1 /\ (a2 < b2 \/ (a2 = b2 /\ a3 <= b3))))%Z.

(** The value of a run of decimal digits. *)
Definition decimal (acc : Z) (d : text) : Z :=
  fold_left (fun a c => (10 * a + digit_value c)%Z) d acc.

(** The truth value [version_check] computes for a [str], apart from the
    log. *)
Definition verdict (version min_version max_version : text) : bool :=
  Re.re_match version_pattern version &&
  match parse_version version with
  | None => false
  | Some current =>
      match (if truthy min_version
             then tuple_lt current <$> parse_version min_version
             else Some false) with
      | Some false =>
          match (if truthy max_version
                 then (fun m => tuple_lt m current) <$> parse_version max_version
                 else Some false) with
          | Some false => true
          | _ => false
          end
      | _ => false
      end
  end.

(** The bytes [modify_main_js] puts in the target for a target of bytes
    [b]: the patched text of [b], encoded again; [None] when [b] does not
    decode or the patched text does not encode. *)
Definition patched_bytes (h : host) (b : text) : option text :=
  match decode_text b with
  | Some content => encode_text h (patch_content content)
  | None => None
  end.

(** Whether the process may give a file of its own back to the owner and
    the group of [f]: always where [os.name] is ["nt"], where [os.chown]
    is not called; elsewhere when it is the superuser, or when [f] is its
    own and the group of [f] is one of its groups. *)
Definition owner_restorable (h : host) (f : file) : Prop :=
  os_name h = str "nt" \/ euid h = 0%Z \/
  (f_uid f = euid h /\ (f_gid f = egid h \/ f_gid f ∈ groups h)).

(** The copy [shutil.copy2] leaves at [p]: the bytes and permission bits
    of [f], owned as the file it overwrites, or by the process. *)
Definition copy_at (h : host) (w : world) (p : text) (f : file) : file :=
  match disk w !! p with
  | Some old => File (f_data f) (f_mode f) (f_uid old) (f_gid old)
  | None => File (f_data f) (f_mode f) (euid h) (egid h)
  end.

(** A world with an empty disk and an empty log. *)
Definition empty_world : world := World ∅ None [].

(** ** Scenarios

    A Linux host whose manifest decoder reads the one-key manifests
    [{"version": "<v>"}], with the patcher run by the superuser in a UTF-8
    locale, and worlds holding a manifest and a target, owned by a user,
    under the first candidate base. *)

Definition quote : ascii := "034".

Definition manifest_head : text :=
  str "{" ++ quote :: str "version" ++ quote :: str ": " ++ [quote].

Definition manifest (version : text) : text :=
  manifest_head ++ version ++ [quote; "}"].

Fixpoint until_quote (s : text) : option text :=
  match s with
  | [] => None
  | c :: s' => if Ascii.eqb c quote then Some [] else cons c <$> until_quote s'
  end.

Definition scenario_json_version (t : text) : option pyvalue :=
  match strip_prefix manifest_head t with
  | Some r => PyStr <$> until_quote r
  | None => None
  end.

Definition linux_host : host :=
  Host (str "Linux") (str "posix") (fun _ => None) (fun a b => a ++ "\" :: b)
    (fun _ _ => true) (fun _ => false) scenario_json_version false 0 0 [0%Z] Some.

Definition scenario_pkg : text := str "/opt/Cursor/resources/app/package.json".
Definition scenario_main : text := str "/opt/Cursor/resources/app/out/main.js".

Definition scenario_world (version content : text) : world :=
  World (<[scenario_pkg := File (manifest version) 420 1000 1000]>
           (<[scenario_main := File content 420 1000 1000]> ∅))
        None [].


(** ** Further hosts for the scenarios *)

Definition darwin_host : host :=
  Host (str "Darwin") (str "posix") (fun _ => None) (fun a b => a ++ "\" :: b)
    (fun _ _ => true) (fun _ => false) scenario_json_version false 501 20
    [20%Z; 12%Z] Some.

(** A Windows host with [USERAPPPATH] set, whose base directory is absent
    and whose standard input is closed or open. *)
Definition windows_host (eof : bool) : host :=
  Host (str "Windows") (str "nt")
    (fun k => if bool_decide (k = str "USERAPPPATH") then Some (str "D:\cursor\app")
              else None)
    (fun a b => a ++ "\" :: b)
    (fun _ _ => true) (fun _ => false) scenario_json_version eof 0 0 [] Some.

Definition freebsd_host : host :=
  Host (str "FreeBSD") (str "posix") (fun _ => None) (fun a b => a ++ "\" :: b)
    (fun _ _ => true) (fun _ => false) scenario_json_version false 1000 1000
    [1000%Z] Some.


(** ** check_cursor_version, the caller in cursor_pro_keep_alive.py

    It has no handler of its own: what the locator, [open] or the decoder
    raise goes to its caller. *)

Section Caller.

Context (h : host).

Definition check_cursor_version : M bool :=
  '(pkg_path, main_path) ← get_cursor_paths h;
  manifest ← read_bytes pkg_path;
  version ← from_option DecodeError (json_version h manifest);
  version_check version (str "0.45.0") [].

End Caller.

(** ** get_cursor_session_token of cursor_pro_keep_alive.py

    The browser tab is what the function asks for cookies: [tab i] is the
    answer to the call number [i] of [tab.cookies()], [None] when the
    call raises.  A cookie is a dictionary with string values.  What the
    function does besides returning is kept as a list of events. *)

Abbreviation cookie := (gmap text text).

(** [s.split(sep)] for a separator of any positive length: [skip] counts
    the characters of the separator still to be dropped, [cur] is the
    piece being read. *)
Fixpoint split_str (sep : text) (skip : nat) (cur s : text) : list text :=
  match s with
  | [] => [cur]
  | c :: s' =>
      match skip with
      | S n => split_str sep n cur s'
      | O =>
          match strip_prefix sep s with
          | Some _ => cur :: split_str sep (length sep - 1) [] s'
          | None => split_str sep 0 (cur ++ [c]) s'
          end
      end
  end.

Inductive attempt_outcome :=
| Token (t : text)
| NotFound
| Failed.

(** The [for cookie in cookies] loop: the first cookie of the wanted name
    decides; a missing ["value"] or a value without the separator raises
    ([KeyError], [IndexError]). *)
Fixpoint scan_cookies (cookies : list cookie) : attempt_outcome :=
  match cookies with
  | [] => NotFound
  | c :: cookies' =>
      if bool_decide (c !! str "name" = Some (str "WorkosCursorSessionToken")) then
        match c !! str "value" with
        | None => Failed
        | Some v =>
            match split_str (str "%3A%3A") 0 [] v !! 1%nat with
            | Some t => Token t
            | None => Failed
            end
        end
      else scan_cookies cookies'
  end.

Definition attempt (tab : nat -> option (list cookie)) (call : nat)
    : attempt_outcome :=
  match tab call with
  | Some cookies => scan_cookies cookies
  | None => Failed
  end.

Inductive token_event :=
| Info_starting_to_get_cookies
| Cookies_requested
| Warning_retrying (attempts : Z)
| Error_maximum_attempts (max_attempts : Z)
| Error_failed_to_get_cookies
| Info_retrying
| Slept (seconds : Z).

Inductive token_result :=
| Returns (token : option text)
| Raises_ValueError.

Definition and_then (events : list token_event)
    (r : token_result * list token_event) : token_result * list token_event :=
  (r.1, events ++ r.2).

(** The [while attempts < max_attempts] loop.  [time.sleep] raises
    [ValueError] on a negative length: inside the [try] that lands in the
    handler, inside the handler it leaves the function.  [fuel] bounds
    the iterations; [Z.to_nat max_attempts] is enough. *)
Fixpoint token_loop (tab : nat -> option (list cookie))
    (max_attempts retry_interval : Z) (fuel : nat) (attempts : Z) (call : nat)
    : token_result * list token_event :=
  if negb (attempts <? max_attempts)%Z then (Returns None, [])
  else
    match fuel with
    | O => (Returns None, [])
    | S fuel' =>
        let handler (attempts : Z) : token_result * list token_event :=
          let attempts := (attempts + 1)%Z in
          if (attempts <? max_attempts)%Z then
            if (retry_interval <? 0)%Z then
              (Raises_ValueError, [Error_failed_to_get_cookies; Info_retrying])
            else
              and_then [Error_failed_to_get_cookies; Info_retrying;
                        Slept retry_interval]
                (token_loop tab max_attempts retry_interval fuel' attempts (S call))
          else
            and_then [Error_failed_to_get_cookies]
              (token_loop tab max_attempts retry_interval fuel' attempts (S call)) in
        and_then [Cookies_requested]
          match attempt tab call with
          | Token t => (Returns (Some t), [])
          | Failed => handler attempts
          | NotFound =>
              let attempts := (attempts + 1)%Z in
              if (attempts <? max_attempts)%Z then
                if (retry_interval <? 0)%Z then
                  and_then [Warning_retrying attempts] (handler attempts)
                else
                  and_then [Warning_retrying attempts; Slept retry_interval]
                    (token_loop tab max_attempts retry_interval fuel' attempts
                       (S call))
              else
                and_then [Error_maximum_attempts max_attempts]
                  (token_loop tab max_attempts retry_interval fuel' attempts
                     (S call))
          end
    end.

Definition get_cursor_session_token (tab : nat -> option (list cookie))
    (max_attempts retry_interval : Z) : token_result * list token_event :=
  and_then [Info_starting_to_get_cookies]
    (token_loop tab max_attempts retry_interval (Z.to_nat max_attempts) 0 0).

(** How often the cookies were asked for, and how often the function
    slept. *)
Definition is_call (e : token_event) : bool :=
  match e with Cookies_requested => true | _ => false end.

Definition is_sleep (e : token_event) : bool :=
  match e with Slept _ => true | _ => false end.

Definition calls (events : list token_event) : nat :=
  length (List.filter is_call events).

Definition sleeps (events : list token_event) : nat :=
  length (List.filter is_sleep events).

(** The first of [n] successive attempts, from call [call] on, that
    yields a token, with its rank. *)
Fixpoint first_token (tab : nat -> option (list cookie)) (call n : nat)
    : option (nat * text) :=
  match n with
  | O => None
  | S n' =>
      match attempt tab call with
      | Token t => Some (O, t)
      | _ => (fun kt => (S kt.1, kt.2)) <$> first_token tab (S call) n'
      end
  end.

(** A tab whose first call raises, whose second answer has no session
    cookie, and whose later answers have one. *)
Definition session_cookie (value : text) : cookie :=
  {[ str "name" := str "WorkosCursorSessionToken"; str "value" := value ]}.

Definition other_cookie : cookie :=
  {[ str "name" := str "theme"; str "value" := str "dark" ]}.

Definition slow_tab (call : nat) : option (list cookie) :=
  match call with
  | O => None
  | S O => Some [other_cookie]
  | _ => Some [other_cookie; session_cookie (str "user_01%3A%3AeyJhbGciOi")]
  end.

(** ** Config of config.py

    [environ] is what [os.getenv] sees once [load_dotenv] has run;
    [dotenv_exists] answers [os.path.exists(dotenv_path)].  The IMAP
    attributes exist only when the temporary mailbox is ["null"]. *)

(** The characters [str.strip] removes. *)
Definition str_space (c : ascii) : bool :=
  let n := nat_of_ascii c in
  ((9 <=? n) && (n <=? 13) || (28 <=? n) && (n <=? 32)
   || (n =? 133) || (n =? 160))%nat.

Fixpoint lstrip (s : text) : text :=
  match s with
  | c :: s' => if str_space c then lstrip s' else s
  | [] => []
  end.

Definition rstrip (s : text) : text := rev (lstrip (rev s)).

Definition strip (s : text) : text := rstrip (lstrip s).

Record imap_settings := Imap {
  imap_server : text;
  imap_port : text;
  imap_user : text;
  imap_pass : text;
  imap_dir : text
}.

Record config := Config {
  temp_mail : text;
  temp_mail_epin : text;
  temp_mail_ext : text;
  domain : text;
  imap : option imap_settings
}.

Inductive config_error :=
| Dotenv_not_found
| Not_configured (key : text)
| Temporary_email_not_configured
| Imap_dir_invalid
| Attribute_missing.

(** [check_is_valid] on a [str]. *)
Definition check_is_valid (value : text) : bool :=
  (0 <? length (strip value))%nat.

(** The loop over [imap_configs], in the order of the dictionary. *)
Fixpoint check_imap_configs (fields : list (text * text)) : option config_error :=
  match fields with
  | [] => None
  | (key, value) :: fields' =>
      if bool_decide (value = str "null") || negb (check_is_valid value)
      then Some (Not_configured key)
      else check_imap_configs fields'
  end.

(** [check_config]: the first violated rule, if any.  The branch is taken
    on [temp_mail], not on the [imap] flag; reading an IMAP attribute that
    was never set raises [AttributeError]. *)
Definition check_config (c : config) : option config_error :=
  if negb (check_is_valid (domain c)) then Some (Not_configured (str "domain"))
  else if negb (bool_decide (temp_mail c = str "null")) then
    if negb (check_is_valid (temp_mail c))
    then Some Temporary_email_not_configured
    else None
  else
    match imap c with
    | None => Some Attribute_missing
    | Some i =>
        match check_imap_configs
                [(str "imap_server", imap_server i); (str "imap_port", imap_port i);
                 (str "imap_user", imap_user i); (str "imap_pass", imap_pass i)] with
        | Some e => Some e
        | None =>
            if negb (bool_decide (imap_dir i = str "null"))
               && negb (check_is_valid (imap_dir i))
            then Some Imap_dir_invalid
            else None
        end
    end.

(** [os.getenv(key, dflt).strip()]. *)
Definition setting (environ : text -> option text) (key dflt : text) : text :=
  strip (default dflt (environ key)).

(** [Config.__init__]. *)
Definition Config_init (dotenv_exists : bool) (environ : text -> option text)
    : config + config_error :=
  if negb dotenv_exists then inr Dotenv_not_found
  else
    let temp_mail :=
      default [] (head (split "@" (setting environ (str "TEMP_MAIL") []))) in
    let c :=
      Config temp_mail
        (setting environ (str "TEMP_MAIL_EPIN") [])
        (setting environ (str "TEMP_MAIL_EXT") [])
        (setting environ (str "DOMAIN") [])
        (if bool_decide (temp_mail = str "null") then
           Some (Imap (setting environ (str "IMAP_SERVER") [])
                   (setting environ (str "IMAP_PORT") [])
                   (setting environ (str "IMAP_USER") [])
                   (setting environ (str "IMAP_PASS") [])
                   (setting environ (str "IMAP_DIR") (str "inbox")))
         else None) in
    match check_config c with
    | Some e => inr e
    | None => inl c
    end.

(** [get_imap]: [None] stands for [False]. *)
Definition get_imap (c : config) : option imap_settings := imap c.

(** A text of blanks only. *)
Definition blank (s : text) : bool := forallb str_space s.

(** The part of [TEMP_MAIL] the configuration keeps. *)
Definition mailbox (environ : text -> option text) : text :=
  default [] (head (split "@" (setting environ (str "TEMP_MAIL") []))).

(** An environment given by its assignments. *)
Definition environ_of (l : list (string * string)) (key : text) : option text :=
  str <$> (list_find (fun kv => bool_decide (str kv.1 = key)) l ≫= fun r => Some r.2.2).
(** * Properties *)

(** ** The matcher finds only words of the pattern *)

Module ReFacts.
Import Re.

Lemma many1_sound {R} k (cont : text -> text -> option R) s : forall acc r,
  many1 k cont acc s = Some r ->
  exists w rest, s = w ++ rest /\ w <> [] /\
    Forall (fun c => cset_mem k c = true) w /\ cont (acc ++ w) rest = Some r.
Proof.
  induction s as [|c s IH]; intros acc r; simpl; [discriminate|].
  destruct (cset_mem k c) eqn:Hc; [|discriminate].
  destruct (many1 k cont (acc ++ [c]) s) as [r'|] eqn:Hm.
  - intros [= <-]. destruct (IH _ _ Hm) as (w & rest & -> & _ & Hall & Hk).
    exists (c :: w), rest. rewrite <- app_assoc in Hk. simpl in Hk.
    repeat split; auto; discriminate.
  - intros Hk. exists [c], s. repeat split; auto; discriminate.
Qed.

Lemma match_here_sound p : forall bos caps s caps' rest,
  match_here p bos caps s = Some (caps', rest) ->
  exists w, s = w ++ rest /\ pat_word p w.
Proof.
  induction p as [|i p IH]; intros bos caps s caps' rest; simpl.
  - intros [= _ <-]. exists []. split; [reflexivity|constructor].
  - destruct i as [k|k|k| |].
    + destruct s as [|c s]; [discriminate|].
      destruct (cset_mem k c) eqn:Hc; [|discriminate].
      intros Hm. destruct (IH _ _ _ _ _ Hm) as (w & -> & Hw).
      exists ([c] ++ w). split; [reflexivity|].
      constructor; [by constructor | done].
    + intros Hm. apply many1_sound in Hm as (w & r & -> & Hne & Hall & Hm).
      destruct (IH _ _ _ _ _ Hm) as (w' & -> & Hw).
      exists (w ++ w'). rewrite app_assoc. split; [reflexivity|].
      constructor; [by constructor | done].
    + intros Hm. apply many1_sound in Hm as (w & r & -> & Hne & Hall & Hm).
      destruct (IH _ _ _ _ _ Hm) as (w' & -> & Hw).
      exists (w ++ w'). rewrite app_assoc. split; [reflexivity|].
      constructor; [by constructor | done].
    + destruct bos; [|discriminate]. intros Hm.
      destruct (IH _ _ _ _ _ Hm) as (w & -> & Hw).
      exists ([] ++ w). split; [reflexivity|]. constructor; [constructor | done].
    + assert (match_here p bos caps s = Some (caps', rest) ->
              exists w, s = w ++ rest /\ pat_word (Eos :: p) w) as Hgo.
      { intros Hm. destruct (IH _ _ _ _ _ Hm) as (w & -> & Hw).
        exists ([] ++ w). split; [reflexivity|]. constructor; [constructor | done]. }
      destruct s as [|c [|c' s]]; [exact Hgo| |discriminate].
      destruct (Ascii.eqb c "010"); [exact Hgo|discriminate].
Qed.

(** Where no suffix of the subject starts a match, the scan copies it. *)
Lemma sub_scan_no_match p tpl s :
  (forall pre post bos, s = pre ++ post -> match_here p bos [] post = None) ->
  forall bos, sub_scan p tpl bos 0 s = s.
Proof.
  induction s as [|c s IH]; intros Hno bos; simpl.
  - by rewrite (Hno [] [] bos eq_refl).
  - rewrite (Hno [] (c :: s) bos eq_refl). f_equal. apply IH.
    intros pre post b ->. by apply (Hno (c :: pre) post b).
Qed.

Lemma re_sub_no_occurrence p tpl t : ~ occurs p t -> re_sub p tpl t = t.
Proof.
  intros Hno. apply sub_scan_no_match. intros pre post bos ->.
  destruct (match_here p bos [] post) as [[caps rest]|] eqn:Hm; [|done].
  destruct (match_here_sound _ _ _ _ _ _ Hm) as (w & -> & Hw).
  exfalso. apply Hno. by exists pre, w, rest.
Qed.

(** A literal character of the pattern is in each of its words. *)
Lemma pat_word_literal c p w : In (One (Chr c)) p -> pat_word p w -> In c w.
Proof.
  intros Hin Hw. induction Hw as [|i p w w' Hi Hw IH]; [done|].
  apply in_or_app. destruct Hin as [->|Hin]; [left | right; auto].
  inversion Hi; subst. simpl in *. left. symmetry. by apply Ascii.eqb_eq.
Qed.

Lemma occurs_literal c p t :
  In (One (Chr c)) p -> occurs p t -> existsb (Ascii.eqb c) t = true.
Proof.
  intros Hin (pre & w & post & -> & Hw). apply existsb_exists. exists c.
  split; [|apply Ascii.eqb_refl].
  apply in_or_app. right. apply in_or_app. left. by eapply pat_word_literal.
Qed.

End ReFacts.

(** ** Patch content *)

Lemma patch_content_no_occurrence t :
  (forall pr, In pr patterns -> ~ Re.occurs (fst pr) t) -> patch_content t = t.
Proof.
  intros Hno. unfold patch_content, patterns in *. simpl.
  rewrite (ReFacts.re_sub_no_occurrence getMachineId_pattern).
  - apply ReFacts.re_sub_no_occurrence.
    apply (Hno (getMacMachineId_pattern, getMacMachineId_replacement)).
    simpl. auto.
  - apply (Hno (getMachineId_pattern, getMachineId_replacement)). simpl. auto.
Qed.

Lemma patterns_need_question_mark pr t :
  In pr patterns -> Re.occurs (fst pr) t -> existsb (Ascii.eqb "?") t = true.
Proof.
  intros Hin. apply ReFacts.occurs_literal.
  destruct Hin as [<-|[<-|[]]]; cbn [fst];
    unfold getMachineId_pattern, getMacMachineId_pattern;
    apply in_or_app; right; simpl; auto.
Qed.

(** ** Version strings *)

Ltac ascii_cases c :=
  destruct c as [[] [] [] [] [] [] [] []]; try discriminate; try reflexivity.

Lemma digit_not_space c : Re.is_digit c = true -> int_space c = false.
Proof. ascii_cases c. Qed.

Lemma digit_not_sign c :
  Re.is_digit c = true -> Ascii.eqb c "+" = false /\ Ascii.eqb c "-" = false.
Proof. ascii_cases c; intros _; split; reflexivity. Qed.

Lemma digit_not_dot c : Re.is_digit c = true -> Ascii.eqb c "." = false.
Proof. ascii_cases c. Qed.

Lemma digit_value_range c : Re.is_digit c = true -> (0 <= digit_value c <= 9)%Z.
Proof. ascii_cases c; intros _; vm_compute; split; discriminate. Qed.

Lemma decimal_nonneg d : Forall (fun c => Re.is_digit c = true) d ->
  forall acc, (0 <= acc)%Z -> (0 <= decimal acc d)%Z.
Proof.
  induction 1 as [|c d Hc _ IH]; intros acc Hacc; simpl; [done|].
  apply IH. apply digit_value_range in Hc. lia.
Qed.

(** The digit loop consumes a run of digits and stops at a newline or at
    the end. *)
Lemma int_digits_run d : Forall (fun c => Re.is_digit c = true) d ->
  forall acc tl, tl = [] \/ tl = ["010"] ->
  int_digits acc false (d ++ tl) = Some (decimal acc d, tl).
Proof.
  induction 1 as [|c d Hc _ IH]; intros acc tl Htl; simpl.
  - by destruct Htl as [->| ->].
  - rewrite Hc. by apply IH.
Qed.

Lemma int_digit_run d tl : d <> [] -> Forall (fun c => Re.is_digit c = true) d ->
  tl = [] \/ tl = ["010"] -> int_literal (d ++ tl) = Some (decimal 0 d).
Proof.
  intros Hne Hd Htl. destruct d as [|c d]; [done|].
  pose proof (Forall_inv Hd) as Hc.
  pose proof (int_digits_run _ Hd 0%Z tl Htl) as Hrun.
  unfold int_literal. cbn [app skip_space] in *. rewrite (digit_not_space _ Hc).
  destruct (digit_not_sign _ Hc) as [-> ->].
  unfold int_unsigned. rewrite Hc, Hrun.
  by destruct Htl as [->| ->].
Qed.

Lemma int_digits_only d : d <> [] -> Forall (fun c => Re.is_digit c = true) d ->
  int_literal d = Some (decimal 0 d).
Proof.
  intros Hne Hd. rewrite <- (app_nil_r d) at 1. apply int_digit_run; auto.
Qed.

Lemma split_no_sep sep s :
  Forall (fun c => Ascii.eqb c sep = false) s -> split sep s = [s].
Proof. induction 1 as [|c s Hc _ IH]; simpl; [done|]. by rewrite Hc, IH. Qed.

Lemma split_app_sep sep a b :
  Forall (fun c => Ascii.eqb c sep = false) a ->
  split sep (a ++ sep :: b) = a :: split sep b.
Proof.
  induction 1 as [|c a Hc _ IH]; simpl.
  - by rewrite Ascii.eqb_refl.
  - by rewrite Hc, IH.
Qed.

(** What the version pattern accepts: three runs of digits between dots,
    and possibly one final newline. *)
Lemma valid_version_shape v : valid_version v ->
  exists d1 d2 d3 tl,
    v = d1 ++ "." :: d2 ++ "." :: d3 ++ tl /\
    (d1 <> [] /\ Forall (fun c => Re.is_digit c = true) d1) /\
    (d2 <> [] /\ Forall (fun c => Re.is_digit c = true) d2) /\
    (d3 <> [] /\ Forall (fun c => Re.is_digit c = true) d3) /\
    (tl = [] \/ tl = ["010"]).
Proof.
  unfold valid_version, Re.re_match, version_pattern. cbn [Re.match_here].
  destruct (Re.many1 _ _ _ _) as [r|] eqn:H1; [intros _|discriminate].
  apply ReFacts.many1_sound in H1 as (d1 & r1 & -> & Hn1 & Hd1 & H1).
  destruct r1 as [|c1 r1]; [discriminate|].
  destruct (Re.cset_mem (Re.Chr ".") c1) eqn:Hc1; [|discriminate].
  cbn [Re.cset_mem] in Hc1. apply Ascii.eqb_eq in Hc1 as <-.
  apply ReFacts.many1_sound in H1 as (d2 & r2 & -> & Hn2 & Hd2 & H2).
  destruct r2 as [|c2 r2]; [discriminate|].
  destruct (Re.cset_mem (Re.Chr ".") c2) eqn:Hc2; [|discriminate].
  cbn [Re.cset_mem] in Hc2. apply Ascii.eqb_eq in Hc2 as <-.
  apply ReFacts.many1_sound in H2 as (d3 & r3 & -> & Hn3 & Hd3 & H3).
  exists d1, d2, d3, r3. repeat split; try done.
  destruct r3 as [|c [|c' r3]]; [by left| |discriminate].
  destruct (Ascii.eqb c "010") eqn:Hc; [|discriminate].
  apply Ascii.eqb_eq in Hc as ->. by right.
Qed.

Lemma digits_no_dot d tl : Forall (fun c => Re.is_digit c = true) d ->
  tl = [] \/ tl = ["010"] -> Forall (fun c => Ascii.eqb c "." = false) (d ++ tl).
Proof.
  intros Hd Htl. apply Forall_app. split.
  - eapply Forall_impl; [exact Hd|]. apply digit_not_dot.
  - destruct Htl as [->| ->]; repeat constructor.
Qed.

(** The triple a valid version string denotes. *)
Lemma literal_valid_version v : valid_version v ->
  exists a b c,
    mapM int_literal (split "." v) = Some [a; b; c] /\
    triple_of v = Some (a, b, c) /\ (0 <= a /\ 0 <= b /\ 0 <= c)%Z.
Proof.
  intros (d1 & d2 & d3 & tl & -> & [Hn1 Hd1] & [Hn2 Hd2] & [Hn3 Hd3] & Htl)%valid_version_shape.
  exists (decimal 0 d1), (decimal 0 d2), (decimal 0 d3).
  assert (mapM int_literal (split "." (d1 ++ "." :: d2 ++ "." :: d3 ++ tl))
          = Some [decimal 0 d1; decimal 0 d2; decimal 0 d3]) as Hp.
  { rewrite split_app_sep, split_app_sep, split_no_sep.
    + cbn [mapM].
      rewrite (int_digits_only d1), (int_digits_only d2) by auto.
      rewrite (int_digit_run d3 tl) by auto. reflexivity.
    + by apply digits_no_dot.
    + rewrite <- (app_nil_r d2). apply digits_no_dot; auto.
    + rewrite <- (app_nil_r d1). apply digits_no_dot; auto. }
  split; [exact Hp|]. split.
  - unfold triple_of. by rewrite Hp.
  - repeat split; apply decimal_nonneg; auto; lia.
Qed.

(** [int] is [int_literal] up to the limit on digits, and fails beyond. *)
Lemma mapM_int_limit pieces :
  mapM int pieces
  = if forallb (fun piece => (digit_count piece <=? int_max_str_digits)%nat) pieces
    then mapM int_literal pieces else None.
Proof.
  induction pieces as [|piece pieces IH]; [done|].
  cbn [mapM forallb]. rewrite IH. unfold int at 1.
  rewrite Nat.ltb_antisym.
  destruct (digit_count piece <=? int_max_str_digits)%nat; cbn [negb andb]; [|done].
  destruct (forallb _ pieces); [done|].
  by destruct (int_literal piece).
Qed.

Lemma parse_version_limit s :
  parse_version s
  = if within_digit_limit s then mapM int_literal (split "." s) else None.
Proof. apply mapM_int_limit. Qed.

Lemma parse_valid_version v : valid_version v ->
  exists a b c,
    triple_of v = Some (a, b, c) /\
    parse_version v = (if within_digit_limit v then Some [a; b; c] else None).
Proof.
  intros (a & b & c & Hp & Ht & _)%literal_valid_version.
  exists a, b, c. split; [exact Ht|]. by rewrite parse_version_limit, Hp.
Qed.

Example parse_version_examples :
  parse_version (str "1.2.3") = Some [1; 2; 3]%Z /\
  parse_version (str "a.b.c") = None /\
  parse_version (str "1.2") = Some [1; 2]%Z /\
  Re.re_match version_pattern (str "1.2.3") = true.
Proof. repeat split; vm_compute; reflexivity. Qed.


(** ** version_check *)

Ltac munfold :=
  unfold mbind, M_bind, mret, M_ret, try_except, from_option, raise, sys_exit,
    logger_info, logger_error in *.

(** [version_check] returns a truth value on every input, and leaves the
    disk alone. *)
Lemma version_check_str v mn mx w :
  (version_check (PyStr v) mn mx w).1 = inl (verdict v mn mx) /\
  disk (version_check (PyStr v) mn mx w).2 = disk w /\
  tmp (version_check (PyStr v) mn mx w).2 = tmp w.
Proof.
  unfold version_check, verdict. munfold.
  destruct (Re.re_match version_pattern v); [|done]. cbn [negb andb].
  destruct (parse_version v) as [cur|]; [|done].
  destruct (truthy mn).
  - destruct (parse_version mn) as [m|]; [|done]. cbn.
    destruct (tuple_lt cur m); [done|].
    destruct (truthy mx); [|done].
    destruct (parse_version mx) as [m'|]; [|done].
    cbn in *. by destruct (tuple_lt m' cur).
  - destruct (truthy mx); [|done].
    destruct (parse_version mx) as [m'|]; [|done].
    cbn in *. by destruct (tuple_lt m' cur).
Qed.

Lemma version_check_other mn mx w :
  version_check PyOther mn mx w
  = (inl false, add_log (ERROR, Version_check_failed TypeError) w).
Proof. reflexivity. Qed.

(** Python's [<] on triples is the strict part of [triple_le]. *)
Lemma tuple_lt_triple a1 a2 a3 b1 b2 b3 :
  tuple_lt [a1; a2; a3] [b1; b2; b3] = false <->
  triple_le (b1, b2, b3) (a1, a2, a3).
Proof.
  unfold triple_le. simpl.
  destruct (Z.eqb_spec a1 b1), (Z.eqb_spec a2 b2), (Z.eqb_spec a3 b3);
    rewrite ?Z.ltb_ge, ?Z.ltb_nlt; try tauto; lia.
Qed.

Lemma tuple_lt_trans_le a : forall m1 m2,
  tuple_lt a m1 = true -> tuple_lt m2 m1 = false -> tuple_lt a m2 = true.
Proof.
  induction a as [|x a IH]; intros [|y1 m1] [|y2 m2]; simpl; try done.
  destruct (Z.eqb_spec x y1), (Z.eqb_spec y2 y1), (Z.eqb_spec x y2);
    subst; try lia; eauto; rewrite ?Z.ltb_lt, ?Z.ltb_nlt, ?Z.ltb_ge; try lia.
  all: intros; exfalso; try lia.
Qed.

Lemma valid_version_nonempty v : valid_version v -> truthy v = true.
Proof.
  intros (d1 & d2 & d3 & tl & -> & [Hn1 _] & _)%valid_version_shape.
  by destruct d1.
Qed.

(** The comparison against a bound, as [version_check] makes it: it lets
    the version through exactly when the bound is absent, or is within the
    limit of [int] and on the right side of the version. *)
Lemma min_check m a b c : m = [] \/ valid_version m ->
  (if truthy m then tuple_lt [a; b; c] <$> parse_version m else Some false)
  = Some false <->
  (m = [] \/ within_digit_limit m = true /\
             exists tm, triple_of m = Some tm /\ triple_le tm (a, b, c)).
Proof.
  intros [->|Hv]; [split; [by left|done]|].
  rewrite (valid_version_nonempty _ Hv).
  destruct (parse_valid_version _ Hv) as (x & y & z & Ht & ->).
  assert (m <> []) as Hne by (intros ->; by apply valid_version_nonempty in Hv).
  destruct (within_digit_limit m); cbn [fmap option_fmap option_map].
  - split.
    + intros [= Hlt]. right. split; [done|]. exists (x, y, z).
      split; [done|]. by apply tuple_lt_triple.
    + intros [?|(_ & tm & Htm & Hle)]; [done|]. rewrite Ht in Htm.
      injection Htm as <-. f_equal. by apply tuple_lt_triple.
  - split; [done|]. by intros [?|[? _]].
Qed.

Lemma max_check m a b c : m = [] \/ valid_version m ->
  (if truthy m then (fun tM => tuple_lt tM [a; b; c]) <$> parse_version m
   else Some false)
  = Some false <->
  (m = [] \/ within_digit_limit m = true /\
             exists tM, triple_of m = Some tM /\ triple_le (a, b, c) tM).
Proof.
  intros [->|Hv]; [split; [by left|done]|].
  rewrite (valid_version_nonempty _ Hv).
  destruct (parse_valid_version _ Hv) as (x & y & z & Ht & ->).
  assert (m <> []) as Hne by (intros ->; by apply valid_version_nonempty in Hv).
  destruct (within_digit_limit m); cbn [fmap option_fmap option_map].
  - split.
    + intros [= Hlt]. right. split; [done|]. exists (x, y, z).
      split; [done|]. by apply tuple_lt_triple.
    + intros [?|(_ & tM & HtM & Hle)]; [done|]. rewrite Ht in HtM.
      injection HtM as <-. f_equal. by apply tuple_lt_triple.
  - split; [done|]. by intros [?|[? _]].
Qed.

(** C3, as the code has it: for a version string the pattern accepts, and
    bounds that are absent (empty) or accepted by the pattern too,
    [version_check] returns true exactly when no number of the version or
    of a bound has more digits than [int] takes, the version's triple is
    at least the minimum's and at most the maximum's, both inclusive, an
    absent bound imposing nothing; ["0.45.0"] satisfies the minimum
    ["0.45.0"], ["0.44.9"] does not. *)
Theorem version_check_satisfies (v mn mx : text) (w : world) :
  valid_version v ->
  (mn = [] \/ valid_version mn) ->
  (mx = [] \/ valid_version mx) ->
  (exists t b,
     triple_of v = Some t /\
     (version_check (PyStr v) mn mx w).1 = inl b /\
     (b = true <->
        within_digit_limit v = true /\
        (mn = [] \/ within_digit_limit mn = true /\
                    exists tm, triple_of mn = Some tm /\ triple_le tm t) /\
        (mx = [] \/ within_digit_limit mx = true /\
                    exists tM, triple_of mx = Some tM /\ triple_le t tM))) /\
  (version_check (PyStr (str "0.45.0")) (str "0.45.0") [] w).1 = inl true /\
  (version_check (PyStr (str "0.44.9")) (str "0.45.0") [] w).1 = inl false.
Proof.
  intros Hv Hmn Hmx. split.
  2:{ split; (etrans; [apply version_check_str|]); by vm_compute. }
  destruct (parse_valid_version _ Hv) as (a & b & c & Ht & Hp).
  exists (a, b, c), (verdict v mn mx). split; [exact Ht|]. split.
  - apply version_check_str.
  - unfold verdict. rewrite Hv, Hp. cbn [andb].
    destruct (within_digit_limit v); [|split; [done|by intros [? _]]].
    pose proof (min_check mn a b c Hmn) as Hmin.
    pose proof (max_check mx a b c Hmx) as Hmax.
    destruct (if truthy mn then _ else _) as [[]|].
    + split; [done|]. intros (_ & Hlo & _). by apply Hmin in Hlo.
    + destruct (if truthy mx then _ else _) as [[]|].
      * split; [done|]. intros (_ & _ & Hhi). by apply Hmax in Hhi.
      * split; [|done]. intros _. split; [done|]. split; [by apply Hmin|by apply Hmax].
      * split; [done|]. intros (_ & _ & Hhi). by apply Hmax in Hhi.
    + split; [done|]. intros (_ & Hlo & _). by apply Hmin in Hlo.
Qed.

Lemma version_check_satisfies_witness :
  exists t b,
    triple_of (str "0.46.1") = Some t /\
    (version_check (PyStr (str "0.46.1")) (str "0.45.0") [] empty_world).1 = inl b /\
    (b = true <->
       within_digit_limit (str "0.46.1") = true /\
       (str "0.45.0" = [] \/ within_digit_limit (str "0.45.0") = true /\
        exists tm, triple_of (str "0.45.0") = Some tm /\ triple_le tm t) /\
       (@nil ascii = [] \/ within_digit_limit [] = true /\
        exists tM, triple_of [] = Some tM /\ triple_le t tM)).
Proof.
  apply (version_check_satisfies (str "0.46.1") (str "0.45.0") [] empty_world).
  - vm_compute. reflexivity.
  - right. vm_compute. reflexivity.
  - left. reflexivity.
Defined.

(** C3 as stated fails: a version the pattern accepts, with a number of
    4301 digits and no bound at all, is not satisfied, because [int]
    raises on it. *)
Lemma version_check_rejects_long_number :
  valid_version (str "1.2." ++ repeat "9" 4301) /\
  (version_check (PyStr (str "1.2." ++ repeat "9" 4301)) [] [] empty_world).1
  = inl false.
Proof. split; vm_compute; reflexivity. Qed.

(** C8, as the code has it: raising the minimum bound never turns a false
    result into a true one, when the numbers of the lower bound have no
    more digits than [int] takes: if the check fails against such an
    [m1], it fails against every [m2] whose triple is at least that of
    [m1]. *)
Theorem version_check_min_monotone (version : pyvalue) (m1 m2 mx : text)
    (w : world) (t1 t2 : Z * Z * Z) :
  valid_version m1 -> valid_version m2 ->
  within_digit_limit m1 = true ->
  triple_of m1 = Some t1 -> triple_of m2 = Some t2 -> triple_le t1 t2 ->
  (version_check version m1 mx w).1 = inl false ->
  (version_check version m2 mx w).1 = inl false.
Proof.
  intros Hv1 Hv2 Hfit Ht1 Ht2 Hle. destruct version as [v|]; [|done].
  rewrite (proj1 (version_check_str v m1 mx w)).
  rewrite (proj1 (version_check_str v m2 mx w)).
  intros [= Hf]. f_equal. revert Hf. unfold verdict.
  destruct (Re.re_match version_pattern v); [|done]. cbn [andb].
  destruct (parse_version v) as [cur|]; [|done].
  rewrite (valid_version_nonempty _ Hv1), (valid_version_nonempty _ Hv2).
  destruct (parse_valid_version _ Hv1) as (x & y & z & Ht1' & ->).
  destruct (parse_valid_version _ Hv2) as (x' & y' & z' & Ht2' & ->).
  rewrite Ht1 in Ht1'. rewrite Ht2 in Ht2'. injection Ht1' as ->. injection Ht2' as ->.
  apply tuple_lt_triple in Hle. rewrite Hfit.
  destruct (within_digit_limit m2); cbn [fmap option_fmap option_map]; [|done].
  destruct (tuple_lt cur [x; y; z]) eqn:Hlt.
  - intros _. by rewrite (tuple_lt_trans_le _ _ _ Hlt Hle).
  - intros Hmax. destruct (tuple_lt cur [x'; y'; z']); [done|exact Hmax].
Qed.

Lemma version_check_min_monotone_witness :
  (version_check (PyStr (str "0.45.3")) (str "0.46.0") [] empty_world).1 = inl false.
Proof.
  apply (version_check_min_monotone (PyStr (str "0.45.3")) (str "0.45.10")
           (str "0.46.0") [] empty_world (0, 45, 10)%Z (0, 46, 0)%Z).
  - vm_compute. reflexivity.
  - vm_compute. reflexivity.
  - vm_compute. reflexivity.
  - vm_compute. reflexivity.
  - vm_compute. reflexivity.
  - unfold triple_le. lia.
  - vm_compute. reflexivity.
Defined.

(** C8 as stated fails: the version ["2.0.0"] fails against the minimum
    [0.0.99...9] with 4301 nines, on which [int] raises, and passes
    against the higher minimum ["1.0.0"]. *)
Lemma version_check_min_not_monotone :
  valid_version (str "0.0." ++ repeat "9" 4301) /\
  valid_version (str "1.0.0") /\
  (exists t1 t2,
     triple_of (str "0.0." ++ repeat "9" 4301) = Some t1 /\
     triple_of (str "1.0.0") = Some t2 /\ triple_le t1 t2) /\
  (version_check (PyStr (str "2.0.0")) (str "0.0." ++ repeat "9" 4301) []
     empty_world).1 = inl false /\
  (version_check (PyStr (str "2.0.0")) (str "1.0.0") [] empty_world).1 = inl true.
Proof.
  split; [vm_compute; reflexivity|]. split; [vm_compute; reflexivity|].
  split; [|split; vm_compute; reflexivity].
  eexists _, (1, 0, 0)%Z. split; [vm_compute; reflexivity|].
  split; [vm_compute; reflexivity|]. unfold triple_le. left. done.
Qed.

(** C4, as the code has it: the check returns false whenever [version]
    fails the pattern, which it reports as an invalid format, and
    whenever a non-empty bound has a piece [int] rejects; a bound is never
    matched against the pattern.  ["1.2"] and ["a.b.c"] fail the pattern. *)
Theorem version_check_fails_closed (v mn mx : text) (w : world) :
  (Re.re_match version_pattern v = false \/
   (mn <> [] /\ parse_version mn = None) \/
   (mx <> [] /\ parse_version mx = None)) ->
  (version_check (PyStr v) mn mx w).1 = inl false /\
  (Re.re_match version_pattern v = false ->
   version_check (PyStr v) mn mx w
   = (inl false, add_log (ERROR, Invalid_version_number_format v) w)) /\
  (Re.re_match version_pattern v = true -> mn <> [] -> parse_version mn = None ->
   version_check (PyStr v) mn mx w
   = (inl false, add_log (ERROR, Version_check_failed ValueError) w)) /\
  Re.re_match version_pattern (str "1.2") = false /\
  Re.re_match version_pattern (str "a.b.c") = false.
Proof.
  intros H. split; [|split; [|split; [|split; vm_compute; reflexivity]]].
  - rewrite (proj1 (version_check_str v mn mx w)). f_equal. unfold verdict.
    destruct (Re.re_match version_pattern v); [|done]. cbn [andb].
    destruct H as [?|[[Hne Hp]|[Hne Hp]]]; [done| |].
    + destruct (parse_version v); [|done].
      destruct mn; [done|]. cbn [truthy]. by rewrite Hp.
    + destruct (parse_version v); [|done].
      destruct mx; [done|]. cbn [truthy]. rewrite Hp.
      by destruct (if truthy mn then _ else _) as [[]|].
  - intros Hv. unfold version_check. munfold. by rewrite Hv.
  - intros Hv Hne Hp. unfold version_check. munfold. rewrite Hv. cbn [negb].
    destruct (parse_version v); [|done].
    destruct mn; [done|]. cbn [truthy]. by rewrite Hp.
Qed.

Lemma version_check_fails_closed_witness :
  (version_check (PyStr (str "1.2.3")) (str "a.b.c") [] empty_world).1 = inl false.
Proof.
  apply (version_check_fails_closed (str "1.2.3") (str "a.b.c") [] empty_world).
  right. left. split; [discriminate|]. vm_compute. reflexivity.
Defined.

(** C4 as stated fails: the bound ["1.2"] does not match the pattern, yet
    the check compares against it and returns true. *)
Lemma version_check_accepts_short_bound :
  Re.re_match version_pattern (str "1.2") = false /\
  (version_check (PyStr (str "1.2.3")) (str "1.2") [] empty_world).1 = inl true.
Proof. split; vm_compute; reflexivity. Qed.

(** ** Files *)

Lemma path_suffix_ne (p suffix : text) : suffix <> [] -> p <> p ++ suffix.
Proof.
  intros Hne Heq. apply (f_equal length) in Heq. rewrite length_app in Heq.
  destruct suffix; [done|]. simpl in Heq. lia.
Qed.


Arguments patch_content : simpl never.
Arguments list_ascii_of_string : simpl never.
Arguments chown_permitted : simpl never.
Arguments decode_text : simpl never.
Arguments encode_text : simpl never.

Ltac fsunfold :=
  unfold os_path_exists, os_path_isfile, os_access_W_OK, read_text, read_bytes, os_stat,
    shutil_copy2, NamedTemporaryFile, tmp_file_write, shutil_move_tmp,
    os_unlink_tmp, os_chmod, os_chown, input in *;
  munfold.

(** C10: where the target file is absent, [backup_files] returns true and
    changes nothing, so no [.bak] file appears. *)
Theorem backup_files_absent (h : host) (pkg_path main_path : text) (w : world) :
  disk w !! main_path = None ->
  backup_files h pkg_path main_path w = (inl true, w).
Proof.
  intros Hnone. unfold backup_files. fsunfold. rewrite Hnone.
  rewrite bool_decide_eq_false_2; [done|]. by intros [? ?].
Qed.

Lemma backup_files_absent_witness :
  backup_files linux_host scenario_pkg scenario_main empty_world
  = (inl true, empty_world).
Proof. apply (backup_files_absent linux_host). vm_compute. reflexivity. Defined.


(** What the kernel answers when the rewritten target, which belongs to
    the process, is given back to the owner and group of [f]. *)
Lemma chown_permitted_iff h b mode f :
  chown_permitted h (File b mode (euid h) (egid h)) (f_uid f) (f_gid f) = true <->
  euid h = 0%Z \/ (f_uid f = euid h /\ (f_gid f = egid h \/ f_gid f ∈ groups h)).
Proof.
  unfold chown_permitted. cbn [f_uid f_gid].
  rewrite orb_true_iff, !andb_true_iff, !orb_true_iff, !bool_decide_eq_true.
  intuition congruence.
Qed.

Lemma owner_restorable_iff h b mode f :
  owner_restorable h f <->
  bool_decide (os_name h = str "nt")
  || chown_permitted h (File b mode (euid h) (egid h)) (f_uid f) (f_gid f) = true.
Proof.
  unfold owner_restorable.
  rewrite orb_true_iff, bool_decide_eq_true, chown_permitted_iff. tauto.
Qed.

(** Every way [modify_main_js] can go: the target is missing; its bytes
    do not decode, or the patched text does not encode, and the empty
    temporary file stays behind; the target is replaced and its owner
    restored; or the owner cannot be restored, and the handler's
    [os.unlink] raises on the temporary file that has been moved. *)
Lemma modify_main_js_eval h main w :
  modify_main_js h main w
  = match disk w !! main with
    | None =>
        (inl false, add_log (ERROR, Error_modifying_file (FileNotFoundError main)) w)
    | Some f =>
        let w1 := set_tmp (Some (File [] 384 (euid h) (egid h))) w in
        match decode_text (f_data f) with
        | None =>
            (inl false, add_log (ERROR, Error_modifying_file UnicodeDecodeError) w1)
        | Some content =>
            match encode_text h (patch_content content) with
            | None =>
                (inl false,
                 add_log (ERROR, Error_modifying_file UnicodeEncodeError) w1)
            | Some b =>
                let d := <[main ++ str ".old" := copy_at h w (main ++ str ".old") f]>
                           (disk w) in
                let mine := File b (f_mode f) (euid h) (egid h) in
                if bool_decide (os_name h = str "nt") then
                  (inl true,
                   World (<[main := mine]> d) None
                     (log w ++ [(INFO, File_modification_successful)]))
                else if chown_permitted h mine (f_uid f) (f_gid f) then
                  (inl true,
                   World (<[main := File b (f_mode f) (f_uid f) (f_gid f)]> d) None
                     (log w ++ [(INFO, File_modification_successful)]))
                else
                  (inr (Exception (FileNotFoundError (str "<tmp>"))),
                   World (<[main := mine]> d) None
                     (log w ++ [(ERROR, Error_modifying_file (PermissionError main))]))
            end
        end
    end.
Proof.
  unfold modify_main_js, read_text, read_bytes. fsunfold.
  destruct (disk w !! main) as [f|] eqn:Hf; cbn; [|done].
  rewrite Hf. cbn.
  destruct (decode_text (f_data f)) as [content|]; cbn; [|done].
  destruct (encode_text h (patch_content content)) as [b|]; cbn; [|done].
  rewrite Hf. cbn.
  rewrite bool_decide_eq_false_2 by (apply path_suffix_ne; discriminate).
  cbn. fold (copy_at h w (main ++ str ".old") f).
  rewrite !lookup_insert_eq. cbn.
  destruct (bool_decide (os_name h = str "nt")); cbn.
  - by rewrite !insert_insert_eq.
  - rewrite !lookup_insert_eq. cbn.
    destruct (chown_permitted h _ (f_uid f) (f_gid f)); cbn;
      by rewrite !insert_insert_eq.
Qed.

Lemma modify_main_js_absent h main w :
  disk w !! main = None ->
  modify_main_js h main w
  = (inl false, add_log (ERROR, Error_modifying_file (FileNotFoundError main)) w).
Proof. intros Hnone. by rewrite modify_main_js_eval, Hnone. Qed.

(** What [modify_main_js] does to a target whose text decodes and encodes
    and whose owner can be restored. *)
Lemma modify_main_js_present h main w f b :
  disk w !! main = Some f ->
  patched_bytes h (f_data f) = Some b ->
  owner_restorable h f ->
  exists o g w',
    modify_main_js h main w = (inl true, w') /\
    f_data o = f_data f /\ f_mode o = f_mode f /\
    f_data g = b /\ f_mode g = f_mode f /\
    (os_name h <> str "nt" -> f_uid g = f_uid f /\ f_gid g = f_gid f) /\
    disk w' = <[main := g]> (<[main ++ str ".old" := o]> (disk w)) /\
    tmp w' = None /\
    log w' = log w ++ [(INFO, File_modification_successful)].
Proof.
  intros Hf Hb Hown. rewrite modify_main_js_eval, Hf. cbn zeta.
  unfold patched_bytes in Hb.
  destruct (decode_text (f_data f)) as [content|]; [|done]. rewrite Hb.
  apply (owner_restorable_iff h b (f_mode f) f) in Hown.
  exists (copy_at h w (main ++ str ".old") f).
  assert (f_data (copy_at h w (main ++ str ".old") f) = f_data f /\
          f_mode (copy_at h w (main ++ str ".old") f) = f_mode f) as [Hod Hom].
  { unfold copy_at. by destruct (disk w !! (main ++ str ".old")). }
  destruct (bool_decide_reflect (os_name h = str "nt")) as [Hnt|Hnt].
  - exists (File b (f_mode f) (euid h) (egid h)). eexists.
    split; [reflexivity|]. cbn. repeat split; done.
  - cbn [orb] in Hown. rewrite Hown.
    exists (File b (f_mode f) (f_uid f) (f_gid f)). eexists.
    split; [reflexivity|]. cbn. repeat split; done.
Qed.

(** A call that returns true has found a target whose text it could
    decode and encode. *)
Lemma modify_main_js_true h main w w' :
  modify_main_js h main w = (inl true, w') ->
  exists f b,
    disk w !! main = Some f /\ patched_bytes h (f_data f) = Some b /\
    owner_restorable h f.
Proof.
  rewrite modify_main_js_eval. destruct (disk w !! main) as [f|] eqn:Hf; [|done].
  cbn zeta. unfold patched_bytes.
  destruct (decode_text (f_data f)) as [content|] eqn:Hd; [|done].
  destruct (encode_text h (patch_content content)) as [b|] eqn:Hb; [|done].
  intros Hrun. exists f, b. split; [done|]. rewrite Hd. split; [exact Hb|].
  apply (owner_restorable_iff h b (f_mode f) f).
  destruct (bool_decide (os_name h = str "nt")); [done|].
  by destruct (chown_permitted h _ (f_uid f) (f_gid f)).
Qed.

(** C9: a successful patch leaves, beside the rewritten target, a copy of
    the original bytes and permission bits at [main_path + ".old"],
    whatever was there before; the target holds the patched text of the
    original, encoded again; every other file, a [.bak] among them, is as
    it was. *)
Theorem modify_main_js_leaves_old (h : host) (main_path : text) (w w' : world) :
  modify_main_js h main_path w = (inl true, w') ->
  exists f o g,
    disk w !! main_path = Some f /\
    disk w' !! (main_path ++ str ".old") = Some o /\
    f_data o = f_data f /\ f_mode o = f_mode f /\
    disk w' !! main_path = Some g /\
    patched_bytes h (f_data f) = Some (f_data g) /\
    (forall p, p <> main_path -> p <> main_path ++ str ".old" ->
               disk w' !! p = disk w !! p).
Proof.
  intros Hrun.
  destruct (modify_main_js_true h main_path w w' Hrun) as (f & b & Hf & Hb & Hown).
  destruct (modify_main_js_present h main_path w f b Hf Hb Hown)
    as (o & g & w1 & Hrun' & Hod & Hom & Hgd & _ & _ & Hdisk & _).
  rewrite Hrun' in Hrun. injection Hrun as <-.
  exists f, o, g. rewrite Hdisk. repeat split; try done.
  - rewrite lookup_insert_ne by (apply path_suffix_ne; discriminate).
    apply lookup_insert_eq.
  - apply lookup_insert_eq.
  - by rewrite Hgd.
  - intros p Hp Hp'. by rewrite !lookup_insert_ne.
Qed.

Lemma modify_main_js_leaves_old_witness :
  exists f o g,
    disk (scenario_world (str "0.46.1") (str "async getMachineId(){return a??b}"))
      !! scenario_main = Some f /\
    disk (modify_main_js linux_host scenario_main
            (scenario_world (str "0.46.1") (str "async getMachineId(){return a??b}"))).2
      !! (scenario_main ++ str ".old") = Some o /\
    f_data o = f_data f /\ f_mode o = f_mode f /\
    disk (modify_main_js linux_host scenario_main
            (scenario_world (str "0.46.1") (str "async getMachineId(){return a??b}"))).2
      !! scenario_main = Some g /\
    patched_bytes linux_host (f_data f) = Some (f_data g) /\
    (forall p, p <> scenario_main -> p <> scenario_main ++ str ".old" ->
       disk (modify_main_js linux_host scenario_main
               (scenario_world (str "0.46.1") (str "async getMachineId(){return a??b}"))).2
         !! p
       = disk (scenario_world (str "0.46.1") (str "async getMachineId(){return a??b}"))
           !! p).
Proof.
  apply (modify_main_js_leaves_old linux_host). vm_compute. reflexivity.
Defined.

(** ** The stages of the orchestrator

    The locator and the requirement check read the disk and write only to
    the log; what they return depends on the disk alone. *)

Lemma more_log_nil w : more_log w [] = w.
Proof. destruct w. unfold more_log. cbn. by rewrite app_nil_r. Qed.

Lemma more_log_more w l l' : more_log (more_log w l) l' = more_log w (l ++ l').
Proof. unfold more_log. cbn. by rewrite app_assoc. Qed.

Lemma add_log_more w r : add_log r w = more_log w [r].
Proof. reflexivity. Qed.

Lemma search_bases_reads h bases w :
  exists r, forall l, search_bases h bases (more_log w l) = (r, more_log w l).
Proof.
  induction bases as [|base bases [r IH]]; cbn.
  - eexists. intros l. reflexivity.
  - fsunfold. cbn.
    destruct (bool_decide (is_Some (disk w !! os_path_join h base (str "package.json")))).
    + eexists. intros l. reflexivity.
    + exists r. intros l. apply IH.
Qed.

Lemma get_cursor_paths_reads h w :
  exists r l0, forall l,
    get_cursor_paths h (more_log w l) = (r, more_log w (l ++ l0)).
Proof.
  unfold get_cursor_paths.
  destruct (negb _).
  { eexists _, []. intros l. rewrite app_nil_r. reflexivity. }
  destruct (bool_decide (platform_system h = str "Linux")).
  { destruct (search_bases_reads h linux_bases w) as [r Hr].
    exists r, []. intros l. rewrite app_nil_r. apply Hr. }
  fsunfold.
  destruct (bool_decide (platform_system h = str "Windows")); cbn.
  - destruct (negb _); cbn.
    + destruct (stdin_eof h); cbn.
      * exists (inr (Exception EOFError)), [].
        intros l. rewrite app_nil_r. reflexivity.
      * eexists _, []. intros l. rewrite app_nil_r. reflexivity.
    + eexists _, []. intros l. rewrite app_nil_r. reflexivity.
  - eexists _, []. intros l. rewrite app_nil_r. reflexivity.
Qed.

Lemma check_files_reads h paths w :
  exists r l0, forall l,
    check_files h paths (more_log w l) = (inl r, more_log w (l ++ l0)).
Proof.
  induction paths as [|p paths (r & l0 & IH)]; cbn.
  - exists true, []. intros l. rewrite app_nil_r. reflexivity.
  - fsunfold. cbn.
    destruct (negb (bool_decide (is_Some (disk w !! p)))); cbn.
    { exists false, [(ERROR, File_does_not_exist p)]. intros l.
      unfold add_log, more_log. cbn. by rewrite <- app_assoc. }
    destruct (negb _); cbn.
    { exists false, [(ERROR, No_file_write_permission p)]. intros l.
      unfold add_log, more_log. cbn. by rewrite <- app_assoc. }
    exists r, l0. intros l. apply IH.
Qed.

(** Past the locator and the requirement check, a run is the rest of the
    body under the outer handler. *)
Lemma run_past_check h restore_mode w pkg main :
  (get_cursor_paths h w).1 = inl (pkg, main) ->
  (check_system_requirements h pkg main w).1 = inl true ->
  exists l,
    patch_cursor_get_machine_id h restore_mode w
    = try_except
        (if restore_mode then restore_steps h pkg main else patch_steps h pkg main)
        (on_exception) (more_log w l).
Proof.
  intros Hloc Hchk.
  destruct (get_cursor_paths_reads h w) as (r & l0 & Hr).
  destruct (check_files_reads h [pkg; main] w) as (b & l1 & Hb).
  pose proof (Hr []) as Hr0. rewrite more_log_nil in Hr0.
  rewrite Hr0 in Hloc. cbn in Hloc. subst r.
  pose proof (Hb []) as Hb0. rewrite more_log_nil in Hb0.
  unfold check_system_requirements in Hchk. rewrite Hb0 in Hchk.
  cbn in Hchk. injection Hchk as ->.
  exists ([(INFO, Starting_script_execution)] ++ l0 ++ l1).
  unfold patch_cursor_get_machine_id. munfold.
  rewrite add_log_more, Hr. unfold check_system_requirements.
  rewrite Hb. cbn [negb]. rewrite <- app_assoc. reflexivity.
Qed.

Lemma logs_only_ret {A} (a : A) : logs_only (mret a).
Proof. exists (inl a), []. intros w. by rewrite more_log_nil. Qed.

Lemma logs_only_raise {A} e : logs_only (raise (A:=A) e).
Proof. exists (inr (Exception e)), []. intros w. by rewrite more_log_nil. Qed.

Lemma logs_only_error m : logs_only (logger_error m).
Proof. exists (inl tt), [(ERROR, m)]. intros w. reflexivity. Qed.

Lemma logs_only_bind {A B} (m : M A) (f : A -> M B) :
  logs_only m -> (forall a, logs_only (f a)) -> logs_only (m ≫= f).
Proof.
  intros (r & l0 & Hm) Hf. destruct r as [a|r].
  - destruct (Hf a) as (r' & l1 & Hfa). exists r', (l0 ++ l1). intros w.
    unfold mbind, M_bind. by rewrite Hm, Hfa, more_log_more.
  - exists (inr r), l0. intros w. unfold mbind, M_bind. by rewrite Hm.
Qed.

Lemma logs_only_try {A} (body : M A) handler :
  logs_only body -> (forall e, logs_only (handler e)) ->
  logs_only (try_except body handler).
Proof.
  intros (r & l0 & Hm) Hh. destruct r as [a|[e|c]].
  - exists (inl a), l0. intros w. unfold try_except. by rewrite Hm.
  - destruct (Hh e) as (r' & l1 & Hhe). exists r', (l0 ++ l1). intros w.
    unfold try_except. by rewrite Hm, Hhe, more_log_more.
  - exists (inr (SystemExit c)), l0. intros w. unfold try_except. by rewrite Hm.
Qed.

Lemma logs_only_from_option {A} e (o : option A) : logs_only (from_option e o).
Proof. destruct o; [apply logs_only_ret|apply logs_only_raise]. Qed.

Lemma version_check_logs_only version mn mx :
  logs_only (version_check version mn mx).
Proof.
  unfold version_check. apply logs_only_try.
  2:{ intros e. apply logs_only_bind; [apply logs_only_error|].
      intros _. apply logs_only_ret. }
  destruct version as [v|]; [|apply logs_only_raise].
  destruct (negb _).
  { apply logs_only_bind; [apply logs_only_error|]. intros _. apply logs_only_ret. }
  apply logs_only_bind; [apply logs_only_from_option|]. intros cur.
  apply logs_only_bind.
  { destruct (truthy mn); [|apply logs_only_ret].
    apply logs_only_bind; [apply logs_only_from_option|].
    intros m. apply logs_only_ret. }
  intros [|].
  { apply logs_only_bind; [apply logs_only_error|]. intros _. apply logs_only_ret. }
  apply logs_only_bind.
  { destruct (truthy mx); [|apply logs_only_ret].
    apply logs_only_bind; [apply logs_only_from_option|].
    intros m. apply logs_only_ret. }
  intros [|]; [|apply logs_only_ret].
  apply logs_only_bind; [apply logs_only_error|]. intros _. apply logs_only_ret.
Qed.

Lemma version_check_reads version mn mx :
  exists b l0, forall w, version_check version mn mx w = (inl b, more_log w l0).
Proof.
  destruct (version_check_logs_only version mn mx) as (r & l0 & Hr).
  destruct version as [v|].
  - exists (verdict v mn mx), l0. intros w. rewrite Hr. f_equal.
    pose proof (proj1 (version_check_str v mn mx w)) as Hv.
    by rewrite Hr in Hv.
  - exists false, l0. intros w. rewrite Hr. f_equal.
    pose proof (version_check_other mn mx w) as Hv. rewrite Hr in Hv.
    by injection Hv.
Qed.

(** The steps after the requirement check, when the declared version fails
    the policy: the run exits with status 1 and the files are as before. *)
Lemma patch_steps_version_fails h pkg main w m version :
  disk w !! pkg = Some m ->
  json_version h (f_data m) = Some version ->
  (version_check version (str "0.45.0") [] w).1 = inl false ->
  exists l,
    try_except (patch_steps h pkg main) (on_exception) w
    = (inr (SystemExit 1), more_log w (l ++ [(ERROR, Version_does_not_meet_requirements)])).
Proof.
  intros Hm Hj Hv.
  destruct (version_check_reads version (str "0.45.0") []) as (b & l0 & Hb).
  rewrite Hb in Hv. cbn in Hv. injection Hv as ->.
  exists ([(INFO, Current_Cursor_version version)] ++ l0).
  unfold patch_steps, read_version, read_bytes. fsunfold. rewrite Hm. cbn.
  rewrite Hj. cbn.
  rewrite add_log_more, Hb. cbn. unfold add_log, more_log. cbn.
  by rewrite <- !app_assoc.
Qed.

(** C6: when the declared version fails the minimum-version policy, the
    run stops there with exit status 1: every file is as it was, and in
    particular no backup file has been created. *)
Theorem version_gate_touches_nothing (h : host) (w : world) (pkg main : text)
    (m : file) (version : pyvalue) :
  (get_cursor_paths h w).1 = inl (pkg, main) ->
  (check_system_requirements h pkg main w).1 = inl true ->
  disk w !! pkg = Some m ->
  json_version h (f_data m) = Some version ->
  (version_check version (str "0.45.0") [] w).1 = inl false ->
  (patch_cursor_get_machine_id h false w).1 = inr (SystemExit 1) /\
  disk (patch_cursor_get_machine_id h false w).2 = disk w /\
  tmp (patch_cursor_get_machine_id h false w).2 = tmp w /\
  last (log (patch_cursor_get_machine_id h false w).2)
  = Some (ERROR, Version_does_not_meet_requirements).
Proof.
  intros Hloc Hchk Hm Hj Hv.
  destruct (run_past_check h false w pkg main Hloc Hchk) as [l ->].
  destruct (version_check_reads version (str "0.45.0") []) as (b & l0 & Hb).
  assert ((version_check version (str "0.45.0") [] (more_log w l)).1 = inl false)
    as Hv'.
  { rewrite Hb in Hv |- *. exact Hv. }
  destruct (patch_steps_version_fails h pkg main (more_log w l) m version Hm Hj Hv')
    as [l' ->].
  cbn. repeat split. by rewrite !app_assoc, last_snoc.
Qed.

Lemma version_gate_touches_nothing_witness :
  disk (patch_cursor_get_machine_id linux_host false
          (scenario_world (str "0.44.0") (str "async getMachineId(){return a??b}"))).2
  = disk (scenario_world (str "0.44.0") (str "async getMachineId(){return a??b}")).
Proof.
  apply (version_gate_touches_nothing linux_host
           (scenario_world (str "0.44.0") (str "async getMachineId(){return a??b}"))
           scenario_pkg scenario_main
           (File (manifest (str "0.44.0")) 420 1000 1000) (PyStr (str "0.44.0"))).
  - vm_compute. reflexivity.
  - vm_compute. reflexivity.
  - vm_compute. reflexivity.
  - vm_compute. reflexivity.
  - vm_compute. reflexivity.
Defined.


(** ** The scan of [re.sub] around a known match *)

Module ScanFacts.
Import Re.

Lemma match_here_bos p : uses_bos p = false ->
  forall b1 b2 caps s, match_here p b1 caps s = match_here p b2 caps s.
Proof.
  induction p as [|i p IH]; intros Hp b1 b2 caps s; [done|].
  destruct i; cbn in Hp |- *; try discriminate; try done.
  destruct s as [|c [|c' s]]; try done; [|destruct (Ascii.eqb c "010"); try done];
    by apply IH.
Qed.

Lemma sub_scan_bos p tpl : uses_bos p = false ->
  forall s b1 b2 k, sub_scan p tpl b1 k s = sub_scan p tpl b2 k s.
Proof.
  intros Hp s b1 b2 k. destruct s as [|c s]; cbn.
  - destruct k; [|done]. by rewrite (match_here_bos p Hp b1 b2).
  - destruct k; [|done]. by rewrite (match_here_bos p Hp b1 b2).
Qed.

Lemma sub_scan_skip p tpl u : forall bos s, u <> [] ->
  sub_scan p tpl bos (length u) (u ++ s) = sub_scan p tpl false 0 s.
Proof.
  induction u as [|c u IH]; intros bos s Hne; [done|]. cbn.
  destruct u as [|c' u]; [done|]. by apply IH.
Qed.

(** At a match that consumes [w], the scan emits the replacement and goes
    on behind [w]. *)
Lemma sub_scan_match p tpl bos w rest caps :
  w <> [] -> match_here p bos [] (w ++ rest) = Some (caps, rest) ->
  sub_scan p tpl bos 0 (w ++ rest) = expand tpl caps ++ sub_scan p tpl false 0 rest.
Proof.
  intros Hne Hm. destruct w as [|c w]; [done|].
  cbn [app sub_scan]. change (c :: w ++ rest) with ((c :: w) ++ rest). rewrite Hm.
  replace (length ((c :: w) ++ rest) - length rest)%nat with (S (length w))
    by (rewrite length_app; cbn; lia).
  f_equal. destruct w as [|c' w]; [done|]. by apply sub_scan_skip.
Qed.

(** Over a stretch where no match starts, the scan copies. *)
Lemma sub_scan_copy p tpl pre : forall bos rest,
  uses_bos p = false ->
  (forall u1 u2 b, pre = u1 ++ u2 -> u2 <> [] ->
     match_here p b [] (u2 ++ rest) = None) ->
  sub_scan p tpl bos 0 (pre ++ rest) = pre ++ sub_scan p tpl bos 0 rest.
Proof.
  induction pre as [|c pre IH]; intros bos rest Hp Hno; [done|].
  cbn [app sub_scan]. change (c :: pre ++ rest) with ((c :: pre) ++ rest).
  rewrite (Hno [] (c :: pre) bos eq_refl) by done. f_equal.
  rewrite (sub_scan_bos p tpl Hp _ false bos). apply IH; [done|].
  intros u1 u2 b -> Hne. by apply (Hno (c :: u1) u2 b).
Qed.

(** A pattern that begins with literals matches only behind them. *)
Lemma match_here_lits P q : forall bos caps s,
  match_here (map (fun c => One (Chr c)) P ++ q) bos caps s
  = match strip_prefix P s with
    | Some s' => match_here q (match P with [] => bos | _ => false end) caps s'
    | None => None
    end.
Proof.
  induction P as [|c P IH]; intros bos caps s; [done|].
  destruct s as [|d s]; [done|]. cbn.
  destruct (Ascii.eqb c d); [|done]. rewrite IH. destruct (strip_prefix P s); [|done].
  by destruct P.
Qed.

Lemma strip_prefix_may_start P T x :
  may_start P T = false -> strip_prefix P (T ++ x) = None.
Proof.
  revert T. induction P as [|c P IH]; intros [|d T]; cbn; try done.
  destruct (Ascii.eqb c d); cbn; [apply IH|done].
Qed.

Lemma strip_prefix_never_starts P T x : never_starts P T = true ->
  forall u1 u2, T = u1 ++ u2 -> u2 <> [] -> strip_prefix P (u2 ++ x) = None.
Proof.
  induction T as [|d T IH]; intros Hn u1 u2 Heq Hne.
  - by destruct u1, u2.
  - cbn [never_starts] in Hn. apply andb_true_iff in Hn as [Hs Hn].
    destruct u1 as [|d' u1]; cbn in Heq.
    + subst u2. apply strip_prefix_may_start. by apply negb_true_iff.
    + injection Heq as _ ->. by eapply IH.
Qed.

Lemma strip_prefix_clear_before z P T x : clear_before z P T = true ->
  forall u, u <> [] -> ~ In z u -> strip_prefix P (u ++ T ++ x) = None.
Proof.
  induction P as [|c P IH]; intros Hc u Hne Hz; [done|].
  destruct u as [|d u]; [done|]. cbn in Hc |- *.
  destruct (Ascii.eqb_spec c d) as [Hcd|Hcd]; [subst d|done].
  destruct (Ascii.eqb_spec c z) as [Hcz|Hcz].
  { exfalso. apply Hz. by left. }
  apply andb_true_iff in Hc as [Hs Hc].
  destruct u as [|d' u].
  - apply (strip_prefix_may_start P T x). by apply negb_true_iff.
  - apply IH; [done|done|]. intros Hin. apply Hz. by right.
Qed.




End ScanFacts.

(** ** The matcher finds every word, and a replacement that shrinks *)

Module ShrinkFacts.
Import Re.




Section Shrinking.

Variables (p : pattern) (tpl : list tpart).

(** Every match is replaced by a shorter text. *)
Hypothesis shrinks : forall b s caps rest,
  match_here p b [] s = Some (caps, rest) ->
  (length (expand tpl caps) + length rest < length s)%nat.

Lemma sub_scan_le s : forall b k,
  (length (sub_scan p tpl b k s) <= length s - k)%nat.
Proof.
  induction s as [|c s IH]; intros b k; cbn [sub_scan].
  - destruct k; [|cbn; lia].
    destruct (match_here p b [] []) as [[caps rest]|] eqn:Hm; [|cbn; lia].
    apply shrinks in Hm. cbn in Hm. lia.
  - destruct k as [|k]; [|specialize (IH false k); cbn; lia].
    destruct (match_here p b [] (c :: s)) as [[caps rest]|] eqn:Hm.
    + apply shrinks in Hm. cbn [length] in *.
      destruct (S (length s) - length rest)%nat as [|m] eqn:Hn; [lia|].
      rewrite length_app. specialize (IH false m). lia.
    + specialize (IH false 0%nat). cbn. lia.
Qed.

Lemma sub_scan_same_or_shorter s : forall b,
  sub_scan p tpl b 0 s = s \/ (length (sub_scan p tpl b 0 s) < length s)%nat.
Proof.
  induction s as [|c s IH]; intros b; cbn [sub_scan].
  - destruct (match_here p b [] []) as [[caps rest]|] eqn:Hm; [|by left].
    apply shrinks in Hm. cbn in Hm. lia.
  - destruct (match_here p b [] (c :: s)) as [[caps rest]|] eqn:Hm.
    + right. apply shrinks in Hm. cbn [length] in *.
      destruct (S (length s) - length rest)%nat as [|m] eqn:Hn; [lia|].
      rewrite length_app. pose proof (sub_scan_le s false m). lia.
    + destruct (IH false) as [->|Hlt]; [by left|right; cbn; lia].
Qed.


End Shrinking.

Lemma strip_prefix_Some P : forall s s', strip_prefix P s = Some s' -> s = P ++ s'.
Proof.
  induction P as [|c P IH]; intros s s'; cbn.
  - by intros [= ->].
  - destruct s as [|d s]; [done|].
    destruct (Ascii.eqb_spec c d) as [->|]; [|done].
    intros Hs. by rewrite (IH _ _ Hs).
Qed.

Lemma expand_tlits P caps : expand (map TLit P) caps = P.
Proof.
  induction P as [|c P IH]; [done|]. unfold expand in *. cbn. by rewrite IH.
Qed.

Lemma expand_app t1 t2 caps : expand (t1 ++ t2) caps = expand t1 caps ++ expand t2 caps.
Proof. unfold expand. apply flat_map_app. Qed.

(** The shape of a match of a rule [P E ?? (G) }] and of its replacement
    [P \1 }]. *)
Lemma rule_match P b s caps rest :
  match_here (map (fun c => One (Chr c)) P
              ++ [Many1 (NotOf ["?"; "?"]); One (Chr "?"); One (Chr "?");
                  Group1 (NotOf ["}"]); One (Chr "}")]) b [] s
  = Some (caps, rest) ->
  exists E G, s = P ++ E ++ "?" :: "?" :: G ++ "}" :: rest /\ E <> [] /\ caps = [G].
Proof.
  rewrite ScanFacts.match_here_lits.
  destruct (strip_prefix P s) as [s'|] eqn:Hs; [|done].
  apply strip_prefix_Some in Hs as ->. cbn [match_here].
  intros (E & r1 & -> & HE & _ & Hm)%ReFacts.many1_sound.
  destruct r1 as [|c1 [|c2 r2]]; cbn [match_here cset_mem] in Hm; try done.
  { by destruct (Ascii.eqb "?" c1). }
  destruct (Ascii.eqb_spec "?" c1) as [<-|]; [|done].
  destruct (Ascii.eqb_spec "?" c2) as [<-|]; [|done].
  apply ReFacts.many1_sound in Hm as (G & r3 & -> & HG & _ & Hm).
  destruct r3 as [|c3 r3]; [done|]. cbn [match_here cset_mem] in Hm.
  destruct (Ascii.eqb_spec "}" c3) as [<-|]; [|done].
  injection Hm as <- <-. by exists E, G.
Qed.

Lemma rule_shrinks P b s caps rest :
  match_here (map (fun c => One (Chr c)) P
              ++ [Many1 (NotOf ["?"; "?"]); One (Chr "?"); One (Chr "?");
                  Group1 (NotOf ["}"]); One (Chr "}")]) b [] s
  = Some (caps, rest) ->
  (length (expand (map TLit P ++ [TGroup 1] ++ [TLit "}"]) caps) + length rest
   < length s)%nat.
Proof.
  intros (E & G & -> & HE & ->)%rule_match.
  rewrite !expand_app, expand_tlits. cbn. rewrite app_nil_r.
  rewrite !length_app. cbn. rewrite !length_app. cbn.
  destruct E; [done|]. cbn. lia.
Qed.

End ShrinkFacts.

(** ** Idempotence *)

Lemma getMachineId_shrinks b s caps rest :
  Re.match_here getMachineId_pattern b [] s = Some (caps, rest) ->
  (length (Re.expand getMachineId_replacement caps) + length rest < length s)%nat.
Proof. apply ShrinkFacts.rule_shrinks. Qed.

Lemma getMacMachineId_shrinks b s caps rest :
  Re.match_here getMacMachineId_pattern b [] s = Some (caps, rest) ->
  (length (Re.expand getMacMachineId_replacement caps) + length rest < length s)%nat.
Proof. apply ShrinkFacts.rule_shrinks. Qed.

(** Each rule leaves a text as it is or makes it shorter, and makes it
    shorter when the text holds a word of its pattern. *)
Lemma rule_same_or_shorter pr t : In pr patterns ->
  Re.re_sub (fst pr) (snd pr) t = t \/
  (length (Re.re_sub (fst pr) (snd pr) t) < length t)%nat.
Proof.
  intros [<-|[<-|[]]]; cbn [fst snd]; unfold Re.re_sub;
    apply ShrinkFacts.sub_scan_same_or_shorter;
    [apply getMachineId_shrinks | apply getMacMachineId_shrinks].
Qed.






(** ** The accessor of the end-to-end scenario *)

Lemma not_in_suffix {A} (z : A) (u1 u2 : list A) : ~ In z (u1 ++ u2) -> ~ In z u2.
Proof. intros Hz Hin. apply Hz. apply in_or_app. by right. Qed.





(** ** End to end *)




(** C5 fails on the code in restore mode: when there is no backup to
    restore, [restore_backup_files] reports failure, the run logs it and
    returns, and the process exits with status 0. *)
Theorem restore_failure_exits_zero (h : host) (w : world) (pkg main : text) :
  (get_cursor_paths h w).1 = inl (pkg, main) ->
  (check_system_requirements h pkg main w).1 = inl true ->
  disk w !! (main ++ str ".bak") = None ->
  (restore_backup_files h pkg main w).1 = inl false /\
  exit_status (patch_cursor_get_machine_id h true w).1 = 0%Z /\
  last (log (patch_cursor_get_machine_id h true w).2) = Some (ERROR, Backup_restore_failed).
Proof.
  intros Hloc Hchk Hbak.
  destruct (run_past_check h true w pkg main Hloc Hchk) as [l ->].
  unfold restore_steps, restore_backup_files. fsunfold. cbn. rewrite Hbak.
  rewrite bool_decide_eq_false_2 by (by intros [? ?]). cbn.
  repeat split. apply last_snoc.
Qed.

Lemma restore_failure_exits_zero_witness :
  exit_status (patch_cursor_get_machine_id linux_host true
                 (scenario_world (str "0.46.1") (str "x"))).1 = 0%Z.
Proof.
  apply (restore_failure_exits_zero linux_host
           (scenario_world (str "0.46.1") (str "x")) scenario_pkg scenario_main).
  - vm_compute. reflexivity.
  - vm_compute. reflexivity.
  - vm_compute. reflexivity.
Defined.


(** On Linux the locator is that loop over its two fixed bases. *)
Lemma get_cursor_paths_linux h w :
  platform_system h = str "Linux" ->
  get_cursor_paths h w = search_bases h linux_bases w.
Proof. intros Hs. unfold get_cursor_paths. by rewrite Hs. Qed.

(** Three candidates, the manifest under the second only. *)
Example search_bases_second_of_three :
  (search_bases linux_host [str "/a"; str "/b"; str "/c"]
     (World {[ str "/b/package.json" := File [] 420 0 0 ]} None [])).1
  = inl (str "/b/package.json", str "/b/out/main.js").
Proof. vm_compute. reflexivity. Qed.

(** * Further properties of the module *)

(** ** check_system_requirements *)

Lemma check_files_two h pkg main w :
  check_system_requirements h pkg main w
  = match disk w !! pkg with
    | None => (inl false, add_log (ERROR, File_does_not_exist pkg) w)
    | Some f =>
        if access_W_OK h pkg f then
          match disk w !! main with
          | None => (inl false, add_log (ERROR, File_does_not_exist main) w)
          | Some g =>
              if access_W_OK h main g then (inl true, w)
              else (inl false, add_log (ERROR, No_file_write_permission main) w)
          end
        else (inl false, add_log (ERROR, No_file_write_permission pkg) w)
    end.
Proof.
  unfold check_system_requirements. cbn [check_files]. fsunfold.
  destruct (disk w !! pkg) as [f|] eqn:Hp.
  2:{ by rewrite bool_decide_eq_false_2 by (by intros [? ?]). }
  rewrite bool_decide_eq_true_2 by eauto. cbn. rewrite Hp.
  destruct (access_W_OK h pkg f); [|done]. cbn.
  destruct (disk w !! main) as [g|] eqn:Hm.
  2:{ by rewrite bool_decide_eq_false_2 by (by intros [? ?]). }
  rewrite bool_decide_eq_true_2 by eauto. cbn. rewrite Hm.
  by destruct (access_W_OK h main g).
Qed.

(** X1: the requirement check returns a truth value on every input; it
    is true exactly when the manifest and the target both exist and are
    writable; it changes no file, logs nothing when true and one error
    record, naming the first offending path, when false. *)
Theorem check_system_requirements_iff (h : host) (pkg main : text) (w : world) :
  exists b l,
    check_system_requirements h pkg main w = (inl b, more_log w l) /\
    (b = true <->
       (exists f, disk w !! pkg = Some f /\ access_W_OK h pkg f = true) /\
       (exists g, disk w !! main = Some g /\ access_W_OK h main g = true)) /\
    (b = true -> l = []) /\
    (b = false ->
       exists p, (p = pkg \/ (p = main /\ is_Some (disk w !! pkg))) /\
         (l = [(ERROR, File_does_not_exist p)] /\ disk w !! p = None \/
          l = [(ERROR, No_file_write_permission p)] /\ is_Some (disk w !! p))).
Proof.
  rewrite check_files_two.
  destruct (disk w !! pkg) as [f|] eqn:Hp.
  2:{ exists false, [(ERROR, File_does_not_exist pkg)]. split; [done|].
      split; [|split; [done|]].
      - split; [done|]. by intros [(? & ? & _) _].
      - intros _. exists pkg. split; [by left|]. by left. }
  destruct (access_W_OK h pkg f) eqn:Ha.
  2:{ exists false, [(ERROR, No_file_write_permission pkg)]. split; [done|].
      split; [|split; [done|]].
      - split; [done|]. intros [(f' & [= <-] & Ha') _]. congruence.
      - intros _. exists pkg. split; [by left|]. right. split; [done|].
        eauto. }
  destruct (disk w !! main) as [g|] eqn:Hm.
  2:{ exists false, [(ERROR, File_does_not_exist main)]. split; [done|].
      split; [|split; [done|]].
      - split; [done|]. by intros [_ (? & ? & _)].
      - intros _. exists main. split; [right; split; [done|]; eauto|].
        by left. }
  destruct (access_W_OK h main g) eqn:Hb.
  - exists true, []. rewrite more_log_nil. split; [done|].
    split; [|split; [done|done]]. split; [|done]. intros _. split; eauto.
  - exists false, [(ERROR, No_file_write_permission main)]. split; [done|].
    split; [|split; [done|]].
    + split; [done|]. intros [_ (g' & [= <-] & Hb')]. congruence.
    + intros _. exists main. split; [right; split; [done|]; eauto|].
      right. split; [done|]. eauto.
Qed.

(** ** The outcomes of a run *)

























(** ** Backup, restore and patch on the disk *)







(** ** The rules on any accessor of their shape *)

Module RuleFacts.
Import Re.

(** A greedy run that reaches a character outside the set stops there. *)
Lemma many1_run {R} k (cont : text -> text -> option R) w s :
  w <> [] -> Forall (fun c => cset_mem k c = true) w ->
  match s with [] => True | c :: _ => cset_mem k c = false end ->
  forall acc r, cont (acc ++ w) s = Some r -> many1 k cont acc (w ++ s) = Some r.
Proof.
  intros Hne Hall Hs. induction Hall as [|c w Hc Hall IH]; [done|].
  intros acc r Hcont. cbn. rewrite Hc. destruct w as [|c' w].
  - cbn in *. destruct s as [|d s]; cbn; [done|]. by rewrite Hs.
  - rewrite (IH ltac:(done) (acc ++ [c]) r); [done|]. by rewrite <- app_assoc.
Qed.

Lemma strip_prefix_app P x : strip_prefix P (P ++ x) = Some x.
Proof. induction P as [|c P IH]; [done|]. cbn. by rewrite Ascii.eqb_refl. Qed.

Lemma not_in_mem z w : ~ In z w ->
  Forall (fun c => cset_mem (NotOf [z]) c = true) w /\
  Forall (fun c => cset_mem (NotOf [z; z]) c = true) w.
Proof.
  intros Hz. split; apply Forall_forall; intros c Hc; cbn;
    destruct (Ascii.eqb_spec c z) as [->|]; try done;
    exfalso; apply Hz; by apply list_elem_of_In.
Qed.

(** A rule [P E ?? (G) }] matches at the head of such a text and captures
    [G], for a non-empty [E] free of [?] and a non-empty [G] free of [}]. *)
Lemma rule_match_here P b E G post :
  E <> [] -> ~ In "?" E -> G <> [] -> ~ In "}" G ->
  match_here (map (fun c => One (Chr c)) P
              ++ [Many1 (NotOf ["?"; "?"]); One (Chr "?"); One (Chr "?");
                  Group1 (NotOf ["}"]); One (Chr "}")]) b []
    (P ++ E ++ "?" :: "?" :: G ++ "}" :: post)
  = Some ([G], post).
Proof.
  intros HE HEq HG HGb. rewrite ScanFacts.match_here_lits, strip_prefix_app.
  cbn [match_here].
  apply (many1_run _ _ E); [done|by apply not_in_mem|done|].
  cbn [match_here cset_mem app]. rewrite !Ascii.eqb_refl.
  apply (many1_run _ _ G); [done|by apply not_in_mem|done|].
  cbn [match_here cset_mem app]. by rewrite Ascii.eqb_refl.
Qed.

(** Two ways to see that no match of a pattern with literal prefix [P]
    starts inside a piece of text. *)
Lemma no_start_without P q z piece T x :
  ~ In z piece -> clear_before z P T = true ->
  forall u1 u2 b, piece = u1 ++ u2 -> u2 <> [] ->
    match_here (map (fun c => One (Chr c)) P ++ q) b [] (u2 ++ T ++ x) = None.
Proof.
  intros Hz Hc u1 u2 b -> Hne. rewrite ScanFacts.match_here_lits.
  rewrite (ScanFacts.strip_prefix_clear_before z); try done.
  intros Hin. apply Hz. apply in_or_app. by right.
Qed.

Lemma no_start_inside P q piece x :
  never_starts P piece = true ->
  forall u1 u2 b, piece = u1 ++ u2 -> u2 <> [] ->
    match_here (map (fun c => One (Chr c)) P ++ q) b [] (u2 ++ x) = None.
Proof.
  intros Hn u1 u2 b Heq Hne. rewrite ScanFacts.match_here_lits.
  by rewrite (ScanFacts.strip_prefix_never_starts P piece x Hn u1 u2 Heq Hne).
Qed.

Lemma accessor_text_cons (P E G post : text) :
  (P ++ E ++ "?" :: "?" :: G ++ ["}"]) ++ post
  = P ++ E ++ "?" :: "?" :: G ++ "}" :: post.
Proof. rewrite <- !app_assoc. cbn [app]. by rewrite <- !app_assoc. Qed.

Lemma accessor_text (P E G post : text) :
  P ++ E ++ str "??" ++ G ++ str "}" ++ post
  = (P ++ E ++ "?" :: "?" :: G ++ ["}"]) ++ post.
Proof. by rewrite accessor_text_cons. Qed.

End RuleFacts.

Lemma getMachineId_rewrites pre E G post :
  ~ In "{" pre -> E <> [] -> ~ In "?" E -> G <> [] -> ~ In "}" G ->
  Re.re_sub getMachineId_pattern getMachineId_replacement
    (pre ++ str "async getMachineId(){return " ++ E ++ str "??" ++ G ++ str "}" ++ post)
  = pre ++ str "async getMachineId(){return " ++ G ++ str "}"
        ++ Re.re_sub getMachineId_pattern getMachineId_replacement post.
Proof.
  intros Hpre HE HEq HG HGb. unfold Re.re_sub.
  rewrite ScanFacts.sub_scan_copy; [f_equal| by vm_compute |].
  2:{ apply (RuleFacts.no_start_without _ _ "{"); [done|by vm_compute]. }
  rewrite RuleFacts.accessor_text.
  rewrite (ScanFacts.sub_scan_match _ _ _ _ post [G]).
  - rewrite (ScanFacts.sub_scan_bos getMachineId_pattern _ eq_refl post false true).
    unfold getMachineId_replacement, Re.tlits.
    rewrite !ShrinkFacts.expand_app, !ShrinkFacts.expand_tlits. cbn.
    by rewrite app_nil_r, <- !app_assoc.
  - intros [Habs _]%app_eq_nil. vm_compute in Habs. discriminate.
  - rewrite RuleFacts.accessor_text_cons. by apply RuleFacts.rule_match_here.
Qed.

Lemma getMacMachineId_rewrites pre E G post :
  ~ In "{" pre -> E <> [] -> ~ In "?" E -> G <> [] -> ~ In "}" G ->
  Re.re_sub getMacMachineId_pattern getMacMachineId_replacement
    (pre ++ str "async getMacMachineId(){return " ++ E ++ str "??" ++ G ++ str "}" ++ post)
  = pre ++ str "async getMacMachineId(){return " ++ G ++ str "}"
        ++ Re.re_sub getMacMachineId_pattern getMacMachineId_replacement post.
Proof.
  intros Hpre HE HEq HG HGb. unfold Re.re_sub.
  rewrite ScanFacts.sub_scan_copy; [f_equal| by vm_compute |].
  2:{ apply (RuleFacts.no_start_without _ _ "{"); [done|by vm_compute]. }
  rewrite RuleFacts.accessor_text.
  rewrite (ScanFacts.sub_scan_match _ _ _ _ post [G]).
  - rewrite (ScanFacts.sub_scan_bos getMacMachineId_pattern _ eq_refl post false true).
    unfold getMacMachineId_replacement, Re.tlits.
    rewrite !ShrinkFacts.expand_app, !ShrinkFacts.expand_tlits. cbn.
    by rewrite app_nil_r, <- !app_assoc.
  - intros [Habs _]%app_eq_nil. vm_compute in Habs. discriminate.
  - rewrite RuleFacts.accessor_text_cons. by apply RuleFacts.rule_match_here.
Qed.

Ltac skip_piece tac :=
  rewrite ScanFacts.sub_scan_copy; [f_equal | by vm_compute | tac].

Lemma patch_content_getMachineId pre E G post :
  ~ In "{" pre -> E <> [] -> ~ In "?" E -> G <> [] -> ~ In "}" G -> ~ In "{" G ->
  patch_content
    (pre ++ str "async getMachineId(){return " ++ E ++ str "??" ++ G ++ str "}" ++ post)
  = pre ++ str "async getMachineId(){return " ++ G ++ str "}" ++ patch_content post.
Proof.
  intros Hpre HE HEq HG HGb HGo. unfold patch_content, patterns.
  cbn [fold_left fst snd]. rewrite getMachineId_rewrites by done.
  unfold Re.re_sub at 1 3.
  skip_piece ltac:(apply (RuleFacts.no_start_without _ _ "{"); [done|by vm_compute]).
  skip_piece ltac:(by apply RuleFacts.no_start_inside).
  skip_piece ltac:(apply (RuleFacts.no_start_without _ _ "{"); [done|by vm_compute]).
  skip_piece ltac:(by apply RuleFacts.no_start_inside).
Qed.

Lemma patch_content_getMacMachineId pre E G post :
  ~ In "{" pre -> E <> [] -> ~ In "?" E -> ~ In "{" E ->
  G <> [] -> ~ In "}" G -> ~ In "{" G ->
  patch_content
    (pre ++ str "async getMacMachineId(){return " ++ E ++ str "??" ++ G ++ str "}" ++ post)
  = pre ++ str "async getMacMachineId(){return " ++ G ++ str "}" ++ patch_content post.
Proof.
  intros Hpre HE HEq HEo HG HGb HGo. unfold patch_content, patterns.
  cbn [fold_left fst snd].
  assert (Re.re_sub getMachineId_pattern getMachineId_replacement
            (pre ++ str "async getMacMachineId(){return " ++ E ++ str "??" ++ G
                 ++ str "}" ++ post)
          = pre ++ str "async getMacMachineId(){return " ++ E ++ str "??" ++ G
                ++ str "}"
                ++ Re.re_sub getMachineId_pattern getMachineId_replacement post)
    as ->.
  { unfold Re.re_sub.
    skip_piece ltac:(apply (RuleFacts.no_start_without _ _ "{"); [done|by vm_compute]).
    skip_piece ltac:(by apply RuleFacts.no_start_inside).
    skip_piece ltac:(apply (RuleFacts.no_start_without _ _ "{"); [done|by vm_compute]).
    skip_piece ltac:(by apply RuleFacts.no_start_inside).
    skip_piece ltac:(apply (RuleFacts.no_start_without _ _ "{"); [done|by vm_compute]).
    skip_piece ltac:(by apply RuleFacts.no_start_inside). }
  by rewrite getMacMachineId_rewrites.
Qed.

(** X13: for either method name, the rules turn an accessor
    [async <name>(){return E??G}] into [async <name>(){return G}] and go
    on behind it, for every non-empty [E] free of [?] and every non-empty
    [G] free of [}], when no brace opens before the accessor or inside
    [E] and [G]. *)
Theorem patch_content_rewrites_accessor (name pre E G post : text) :
  In name [str "getMachineId"; str "getMacMachineId"] ->
  ~ In "{" pre ->
  E <> [] -> ~ In "?" E -> ~ In "{" E ->
  G <> [] -> ~ In "}" G -> ~ In "{" G ->
  patch_content
    (pre ++ (str "async " ++ name ++ str "(){return ") ++ E ++ str "??" ++ G
         ++ str "}" ++ post)
  = pre ++ (str "async " ++ name ++ str "(){return ") ++ G ++ str "}"
        ++ patch_content post.
Proof.
  intros [<-|[<-|[]]] Hpre HE HEq HEo HG HGb HGo.
  - by apply patch_content_getMachineId.
  - by apply patch_content_getMacMachineId.
Qed.

Lemma patch_content_rewrites_accessor_witness :
  patch_content
    (str "x;" ++ (str "async " ++ str "getMacMachineId" ++ str "(){return ")
       ++ str "this.a.machineId" ++ str "??" ++ str "this.b.macMachineId"
       ++ str "}" ++ str "y")
  = str "x;" ++ (str "async " ++ str "getMacMachineId" ++ str "(){return ")
      ++ str "this.b.macMachineId" ++ str "}" ++ patch_content (str "y").
Proof.
  apply patch_content_rewrites_accessor.
  - right. left. reflexivity.
  - vm_compute. intuition discriminate.
  - discriminate.
  - vm_compute. intuition discriminate.
  - vm_compute. intuition discriminate.
  - discriminate.
  - vm_compute. intuition discriminate.
  - vm_compute. intuition discriminate.
Defined.

(** X14: the rules never make a content longer: they leave it as it is
    or make it strictly shorter; and they leave as it is every content
    without a question mark. *)
Theorem patch_content_same_or_shorter (content : text) :
  (patch_content content = content \/
   (length (patch_content content) < length content)%nat) /\
  (if existsb (Ascii.eqb "?") content then True
   else patch_content content = content).
Proof.
  split.
  - unfold patch_content, patterns. cbn [fold_left fst snd].
    pose proof (rule_same_or_shorter
                  (getMachineId_pattern, getMachineId_replacement) content
                  ltac:(by left)) as H1.
    pose proof (rule_same_or_shorter
                  (getMacMachineId_pattern, getMacMachineId_replacement)
                  (Re.re_sub getMachineId_pattern getMachineId_replacement content)
                  ltac:(right; by left)) as H2.
    cbn [fst snd] in H1, H2.
    destruct H1 as [H1|H1], H2 as [H2|H2]; rewrite ?H1 in *; rewrite ?H2 in *;
      try (by left); right; lia.
  - destruct (existsb (Ascii.eqb "?") content) eqn:Hq; [done|].
    apply patch_content_no_occurrence. intros pr Hin Hocc.
    apply (patterns_need_question_mark _ _ Hin) in Hocc. congruence.
Qed.

(** ** What the version pattern accepts, and what the check logs *)

Lemma version_pattern_accepts d1 d2 d3 tl :
  d1 <> [] -> Forall (fun c => Re.is_digit c = true) d1 ->
  d2 <> [] -> Forall (fun c => Re.is_digit c = true) d2 ->
  d3 <> [] -> Forall (fun c => Re.is_digit c = true) d3 ->
  tl = [] \/ tl = ["010"] ->
  valid_version (d1 ++ "." :: d2 ++ "." :: d3 ++ tl).
Proof.
  intros Hn1 Hd1 Hn2 Hd2 Hn3 Hd3 Htl.
  unfold valid_version, Re.re_match, version_pattern. cbn [Re.match_here].
  erewrite (RuleFacts.many1_run Re.Digit _ d1); [done|done|done|done|].
  cbn [app Re.match_here Re.cset_mem]. rewrite Ascii.eqb_refl.
  erewrite (RuleFacts.many1_run Re.Digit _ d2); [done|done|done|done|].
  cbn [app Re.match_here Re.cset_mem]. rewrite Ascii.eqb_refl.
  erewrite (RuleFacts.many1_run Re.Digit _ d3); [done|done|done| |].
  - by destruct Htl as [->| ->].
  - cbn [app Re.match_here]. by destruct Htl as [->| ->].
Qed.

(** X15: the version pattern accepts exactly three non-empty runs of
    decimal digits separated by dots, followed by nothing or by one
    newline: a trailing newline is let through, anything else is not. *)
Theorem valid_version_iff (v : text) :
  valid_version v <->
  exists d1 d2 d3 tl,
    v = d1 ++ "." :: d2 ++ "." :: d3 ++ tl /\
    (d1 <> [] /\ Forall (fun c => Re.is_digit c = true) d1) /\
    (d2 <> [] /\ Forall (fun c => Re.is_digit c = true) d2) /\
    (d3 <> [] /\ Forall (fun c => Re.is_digit c = true) d3) /\
    (tl = [] \/ tl = ["010"]).
Proof.
  split; [apply valid_version_shape|].
  intros (d1 & d2 & d3 & tl & -> & [Hn1 Hd1] & [Hn2 Hd2] & [Hn3 Hd3] & Htl).
  by apply version_pattern_accepts.
Qed.

Lemma version_check_log version mn mx :
  let r := version_check version mn mx empty_world in
  r.1 = inl true /\ log r.2 = [] \/
  r.1 = inl false /\ exists m, log r.2 = [(ERROR, m)].
Proof.
  destruct version as [v|]; [|right; split; [done|by eexists]].
  unfold version_check. munfold.
  destruct (Re.re_match version_pattern v); [|right; split; [done|by eexists]].
  cbn [negb].
  destruct (parse_version v) as [cur|]; [|right; split; [done|by eexists]].
  destruct (truthy mn).
  - destruct (parse_version mn) as [m|]; [|right; split; [done|by eexists]]. cbn.
    destruct (tuple_lt cur m); [right; split; [done|by eexists]|].
    destruct (truthy mx); [|by left].
    destruct (parse_version mx) as [m'|]; [|right; split; [done|by eexists]].
    cbn. destruct (tuple_lt m' cur); [right; split; [done|by eexists]|by left].
  - destruct (truthy mx); [|by left].
    destruct (parse_version mx) as [m'|]; [|right; split; [done|by eexists]].
    cbn. destruct (tuple_lt m' cur); [right; split; [done|by eexists]|by left].
Qed.

(** X16: [version_check] never raises: whatever the version value and the
    bounds, it returns a truth value, the same in every world, and
    changes nothing but the log, to which it adds nothing when it
    returns true and exactly one error record when it returns false. *)
Theorem version_check_never_raises (version : pyvalue) (mn mx : text) :
  exists b l0,
    (forall w, version_check version mn mx w = (inl b, more_log w l0)) /\
    (b = true /\ l0 = [] \/ b = false /\ exists m, l0 = [(ERROR, m)]).
Proof.
  destruct (version_check_reads version mn mx) as (b & l0 & Hb).
  exists b, l0. split; [done|].
  pose proof (version_check_log version mn mx) as Hlog. cbn zeta in Hlog.
  rewrite Hb in Hlog. cbn in Hlog.
  destruct Hlog as [[[= ->] ->]|[[= ->] [m ->]]]; [left|right]; eauto.
Qed.

(** ** check_cursor_version *)

Lemma check_cursor_version_eval h w :
  exists l,
    check_cursor_version h w
    = match (get_cursor_paths h w).1 with
      | inr r => (inr r, more_log w l)
      | inl (pkg, main) =>
          match disk w !! pkg with
          | None => (inr (Exception (FileNotFoundError pkg)), more_log w l)
          | Some m =>
              match json_version h (f_data m) with
              | None => (inr (Exception DecodeError), more_log w l)
              | Some version =>
                  version_check version (str "0.45.0") [] (more_log w l)
              end
          end
      end.
Proof.
  destruct (get_cursor_paths_reads h w) as (r & l0 & Hr).
  pose proof (Hr []) as Hr0. rewrite more_log_nil in Hr0. cbn in Hr0.
  exists l0. unfold check_cursor_version. fsunfold. rewrite Hr0. cbn.
  destruct r as [[pkg main]|r]; [|done]. cbn.
  destruct (disk w !! pkg) as [m|]; [|done]. cbn.
  by destruct (json_version h (f_data m)).
Qed.

(** X17: [check_cursor_version] changes no file.  It returns the verdict
    of [version_check] on the declared version against ["0.45.0"]; it
    raises, with no handler, what the locator raises, [FileNotFoundError]
    when the manifest is missing, and the decoder's error when the
    manifest yields no version. *)
Theorem check_cursor_version_spec (h : host) (w : world) :
  disk (check_cursor_version h w).2 = disk w /\
  tmp (check_cursor_version h w).2 = tmp w /\
  match (check_cursor_version h w).1 with
  | inl b =>
      exists pkg main m version,
        (get_cursor_paths h w).1 = inl (pkg, main) /\
        disk w !! pkg = Some m /\
        json_version h (f_data m) = Some version /\
        (version_check version (str "0.45.0") [] w).1 = inl b
  | inr r =>
      (get_cursor_paths h w).1 = inr r \/
      exists pkg main,
        (get_cursor_paths h w).1 = inl (pkg, main) /\
        (disk w !! pkg = None /\ r = Exception (FileNotFoundError pkg) \/
         exists m, disk w !! pkg = Some m /\ json_version h (f_data m) = None /\
                   r = Exception DecodeError)
  end.
Proof.
  destruct (check_cursor_version_eval h w) as [l ->].
  destruct (get_cursor_paths h w).1 as [[pkg main]|r] eqn:Hloc; [|cbn; eauto].
  destruct (disk w !! pkg) as [m|] eqn:Hm.
  2:{ cbn. repeat split; try done. right. exists pkg, main. eauto. }
  destruct (json_version h (f_data m)) as [version|] eqn:Hj.
  2:{ cbn. repeat split; try done. right. exists pkg, main. split; [done|].
      right. eauto. }
  destruct (version_check_reads version (str "0.45.0") []) as (b & l0 & Hb).
  rewrite !Hb. cbn. repeat split; try done.
  exists pkg, main, m, version. by rewrite Hb.
Qed.



(** ** get_cursor_session_token *)

Lemma calls_app e1 e2 : calls (e1 ++ e2) = (calls e1 + calls e2)%nat.
Proof. unfold calls. by rewrite List.filter_app, length_app. Qed.

Lemma sleeps_app e1 e2 : sleeps (e1 ++ e2) = (sleeps e1 + sleeps e2)%nat.
Proof. unfold sleeps. by rewrite List.filter_app, length_app. Qed.

(** With a sleep length that is not negative, the loop stops at the first
    attempt that yields a token, or after the attempts that are left. *)
Lemma token_loop_spec tab max_attempts retry_interval :
  (0 <= retry_interval)%Z ->
  forall fuel attempts call,
    (Z.to_nat (max_attempts - attempts) <= fuel)%nat ->
    let n := Z.to_nat (max_attempts - attempts) in
    let r := token_loop tab max_attempts retry_interval fuel attempts call in
    match first_token tab call n with
    | Some (k, t) =>
        r.1 = Returns (Some t) /\ calls r.2 = S k /\ sleeps r.2 = k
    | None =>
        r.1 = Returns None /\ calls r.2 = n /\ sleeps r.2 = (n - 1)%nat
    end.
Proof.
  intros Hretry. apply Z.ltb_ge in Hretry.
  induction fuel as [|fuel IH]; intros attempts call Hfuel; cbn zeta.
  - assert (Z.to_nat (max_attempts - attempts) = 0%nat) as -> by lia. cbn.
    by destruct (attempts <? max_attempts)%Z.
  - cbn [token_loop]. destruct (Z.ltb_spec attempts max_attempts) as [Hlt|Hge].
    2:{ assert (Z.to_nat (max_attempts - attempts) = 0%nat) as -> by lia. done. }
    cbn [negb].
    assert (Z.to_nat (max_attempts - attempts)
            = S (Z.to_nat (max_attempts - (attempts + 1)))) as -> by lia.
    cbn [first_token]. rewrite Hretry.
    specialize (IH (attempts + 1)%Z (S call) ltac:(lia)). cbn zeta in IH.
    set (n' := Z.to_nat (max_attempts - (attempts + 1))) in *.
    destruct (attempt tab call) as [t| |]; [done| |];
      (destruct (Z.ltb_spec (attempts + 1) max_attempts) as [Hlt'|Hge'];
       [ assert (n' <> 0%nat) as Hn' by (subst n'; lia)
       | assert (n' = 0%nat) as Hn' by (subst n'; lia);
         rewrite Hn' in *; cbn [first_token] in * ]);
      try (destruct (first_token tab (S call) n') as [[k t]|]);
      unfold and_then; cbn [fst snd fmap option_fmap option_map];
      rewrite ?calls_app, ?sleeps_app;
      destruct IH as (-> & -> & ->); cbn; repeat split; lia.
Qed.

(** X19: with a sleep length that is not negative, when one of the first
    [max_attempts] answers of the tab holds the session cookie,
    [get_cursor_session_token] returns the token of the first such
    answer, having asked that many times and slept once between two
    successive requests. *)
Theorem session_token_first_success (tab : nat -> option (list cookie))
    (max_attempts retry_interval : Z) (k : nat) (t : text) :
  (0 <= retry_interval)%Z ->
  (Z.of_nat k < max_attempts)%Z ->
  attempt tab k = Token t ->
  (forall i, (i < k)%nat -> forall t', attempt tab i <> Token t') ->
  (get_cursor_session_token tab max_attempts retry_interval).1 = Returns (Some t) /\
  calls (get_cursor_session_token tab max_attempts retry_interval).2 = S k /\
  sleeps (get_cursor_session_token tab max_attempts retry_interval).2 = k.
Proof.
  intros Hretry Hk Htok Hbefore.
  assert (forall n call j, (j < n)%nat ->
            attempt tab (call + j) = Token t ->
            (forall i, (i < j)%nat -> forall t', attempt tab (call + i) <> Token t') ->
            first_token tab call n = Some (j, t)) as Hfirst.
  { induction n as [|n IHn]; intros call j Hj Hat Hbef; [lia|]. cbn.
    destruct j as [|j].
    - rewrite Nat.add_0_r in Hat. by rewrite Hat.
    - pose proof (Hbef 0%nat ltac:(lia)) as H0. rewrite Nat.add_0_r in H0.
      assert (first_token tab (S call) n = Some (j, t)) as Hrec.
      { apply IHn; [lia| |].
        - by replace (S call + j)%nat with (call + S j)%nat by lia.
        - intros i Hi t'. replace (S call + i)%nat with (call + S i)%nat by lia.
          apply Hbef. lia. }
      destruct (attempt tab call) as [t0| |]; [by destruct (H0 t0)| |];
        by rewrite Hrec. }
  pose proof (token_loop_spec tab max_attempts retry_interval Hretry
                (Z.to_nat max_attempts) 0 0%nat ltac:(lia)) as Hspec.
  cbn zeta in Hspec. rewrite Z.sub_0_r in Hspec.
  rewrite (Hfirst (Z.to_nat max_attempts) 0%nat k) in Hspec; [|lia|done|done].
  unfold get_cursor_session_token, and_then. cbn [fst snd].
  rewrite calls_app, sleeps_app. cbn. tauto.
Qed.

(** X20: with a sleep length that is not negative, when none of the first
    [max_attempts] answers holds a usable session cookie, the function
    returns [None] after exactly [max_attempts] requests (none at all
    when [max_attempts] is not positive), and it has slept between the
    requests but not after the last. *)
Theorem session_token_exhausted (tab : nat -> option (list cookie))
    (max_attempts retry_interval : Z) :
  (0 <= retry_interval)%Z ->
  (forall i, (Z.of_nat i < max_attempts)%Z -> forall t, attempt tab i <> Token t) ->
  (get_cursor_session_token tab max_attempts retry_interval).1 = Returns None /\
  calls (get_cursor_session_token tab max_attempts retry_interval).2
  = Z.to_nat max_attempts /\
  sleeps (get_cursor_session_token tab max_attempts retry_interval).2
  = (Z.to_nat max_attempts - 1)%nat.
Proof.
  intros Hretry Hnone.
  assert (forall n call,
            (forall j, (j < n)%nat -> forall t, attempt tab (call + j) <> Token t) ->
            first_token tab call n = None) as Hfirst.
  { induction n as [|n IHn]; intros call Hall; [done|]. cbn.
    pose proof (Hall 0%nat ltac:(lia)) as H0. rewrite Nat.add_0_r in H0.
    rewrite IHn.
    - destruct (attempt tab call) as [t0| |]; [by destruct (H0 t0)|done|done].
    - intros j Hj t. replace (S call + j)%nat with (call + S j)%nat by lia.
      apply Hall. lia. }
  pose proof (token_loop_spec tab max_attempts retry_interval Hretry
                (Z.to_nat max_attempts) 0 0%nat ltac:(lia)) as Hspec.
  cbn zeta in Hspec. rewrite Z.sub_0_r in Hspec.
  rewrite Hfirst in Hspec by (intros j Hj t; apply Hnone; cbn; lia).
  unfold get_cursor_session_token, and_then. cbn [fst snd].
  rewrite calls_app, sleeps_app. cbn. tauto.
Qed.

Lemma session_token_first_success_witness :
  (get_cursor_session_token slow_tab 3 2).1 = Returns (Some (str "eyJhbGciOi")) /\
  calls (get_cursor_session_token slow_tab 3 2).2 = 3%nat /\
  sleeps (get_cursor_session_token slow_tab 3 2).2 = 2%nat.
Proof.
  apply (session_token_first_success slow_tab 3 2 2 (str "eyJhbGciOi")).
  - lia.
  - lia.
  - vm_compute. reflexivity.
  - intros [|[|i]] Hi t'; [discriminate|discriminate|lia].
Defined.

Lemma session_token_exhausted_witness :
  (get_cursor_session_token slow_tab 2 2).1 = Returns None /\
  calls (get_cursor_session_token slow_tab 2 2).2 = Z.to_nat 2 /\
  sleeps (get_cursor_session_token slow_tab 2 2).2 = (Z.to_nat 2 - 1)%nat.
Proof.
  apply (session_token_exhausted slow_tab 2 2).
  - lia.
  - intros [|[|i]] Hi t'; [discriminate|discriminate|lia].
Defined.

(** X21: with a negative sleep length a retry cannot be slept on: when
    the first request yields no token and more than one attempt is
    allowed, the function asks once and then raises [ValueError] out of
    its handler; only when the session cookie was merely absent and two
    attempts were allowed does it return [None], the second attempt
    never made. *)
Theorem session_token_negative_interval (tab : nat -> option (list cookie))
    (max_attempts retry_interval : Z) :
  (retry_interval < 0)%Z ->
  (1 < max_attempts)%Z ->
  (forall t, attempt tab 0 <> Token t) ->
  (get_cursor_session_token tab max_attempts retry_interval).1
  = match attempt tab 0 with
    | NotFound => if (max_attempts =? 2)%Z then Returns None else Raises_ValueError
    | _ => Raises_ValueError
    end /\
  calls (get_cursor_session_token tab max_attempts retry_interval).2 = 1%nat /\
  sleeps (get_cursor_session_token tab max_attempts retry_interval).2 = 0%nat.
Proof.
  intros Hneg Hmax Hno. unfold get_cursor_session_token.
  destruct (Z.to_nat max_attempts) as [|fuel] eqn:Hfuel; [lia|].
  cbn [token_loop].
  assert ((0 <? max_attempts)%Z = true) as -> by (apply Z.ltb_lt; lia).
  assert ((0 + 1 <? max_attempts)%Z = true) as -> by (apply Z.ltb_lt; lia).
  assert ((retry_interval <? 0)%Z = true) as -> by (by apply Z.ltb_lt).
  cbn [negb]. destruct (attempt tab 0) as [t| |]; [by destruct (Hno t)| |].
  - destruct (Z.eqb_spec max_attempts 2) as [->|Hne].
    + cbn. destruct fuel; cbn; done.
    + assert ((0 + 1 + 1 <? max_attempts)%Z = true) as -> by (apply Z.ltb_lt; lia).
      done.
  - done.
Qed.

Lemma session_token_negative_interval_witness :
  (get_cursor_session_token slow_tab 3 (-1)).1
  = match attempt slow_tab 0 with
    | NotFound => if (3 =? 2)%Z then Returns None else Raises_ValueError
    | _ => Raises_ValueError
    end.
Proof.
  apply (session_token_negative_interval slow_tab 3 (-1)).
  - lia.
  - lia.
  - intros t. discriminate.
Defined.

(** The separator begins with a percent sign: text without one is a
    single piece, and is cut where the separator stands. *)
Lemma separator_needs_percent c s :
  "%" <> c -> strip_prefix (str "%3A%3A") (c :: s) = None.
Proof.
  intros Hc. change (str "%3A%3A") with ("%" :: str "3A%3A").
  cbn [strip_prefix]. by destruct (Ascii.eqb_spec "%" c).
Qed.

Lemma split_str_no_percent b : ~ In "%" b ->
  forall cur, split_str (str "%3A%3A") 0 cur b = [cur ++ b].
Proof.
  induction b as [|c b IH]; intros Hb cur; cbn [split_str];
    [by rewrite app_nil_r|].
  rewrite separator_needs_percent by (intros <-; apply Hb; by left).
  rewrite IH by (intros Hin; apply Hb; by right). by rewrite <- app_assoc.
Qed.

Lemma split_str_at_separator a b : ~ In "%" a ->
  forall cur,
    split_str (str "%3A%3A") 0 cur (a ++ str "%3A%3A" ++ b)
    = (cur ++ a) :: split_str (str "%3A%3A") 0 [] b.
Proof.
  induction a as [|c a IH]; intros Ha cur.
  - rewrite app_nil_r. vm_compute (str "%3A%3A"). cbn.
    reflexivity.
  - cbn [app split_str].
    rewrite separator_needs_percent by (intros <-; apply Ha; by left).
    rewrite IH by (intros Hin; apply Ha; by right). by rewrite <- app_assoc.
Qed.

(** X22: the first cookie named [WorkosCursorSessionToken] decides an
    attempt, whatever follows it: when its value is [a%3A%3Ab], with no
    percent sign in [a] and [b], the token is [b]; when its value has no
    percent sign at all the attempt fails. *)
Theorem scan_cookies_first_named (others rest : list cookie) (c : cookie)
    (a b : text) :
  Forall (fun o => o !! str "name" <> Some (str "WorkosCursorSessionToken")) others ->
  c !! str "name" = Some (str "WorkosCursorSessionToken") ->
  ~ In "%" a -> ~ In "%" b ->
  (c !! str "value" = Some (a ++ str "%3A%3A" ++ b) ->
   scan_cookies (others ++ c :: rest) = Token b) /\
  (c !! str "value" = Some a -> scan_cookies (others ++ c :: rest) = Failed).
Proof.
  intros Hothers Hname Ha Hb.
  assert (scan_cookies (others ++ c :: rest) = scan_cookies (c :: rest)) as ->.
  { induction Hothers as [|o others Ho _ IH]; [done|]. cbn [app scan_cookies].
    by rewrite bool_decide_eq_false_2. }
  cbn [scan_cookies]. rewrite bool_decide_eq_true_2 by done. split; intros ->.
  - rewrite split_str_at_separator by done.
    by rewrite split_str_no_percent.
  - by rewrite split_str_no_percent.
Qed.

Lemma scan_cookies_first_named_witness :
  scan_cookies ([other_cookie] ++ session_cookie (str "u1" ++ str "%3A%3A" ++ str "tok")
                  :: [session_cookie (str "zz")])
  = Token (str "tok").
Proof.
  apply (scan_cookies_first_named [other_cookie] [session_cookie (str "zz")]
           (session_cookie (str "u1" ++ str "%3A%3A" ++ str "tok"))
           (str "u1") (str "tok")).
  - repeat constructor. vm_compute. discriminate.
  - vm_compute. reflexivity.
  - vm_compute. intuition discriminate.
  - vm_compute. intuition discriminate.
  - vm_compute. reflexivity.
Defined.

(** ** Config *)

Lemma blank_lstrip s : blank (lstrip s) = blank s.
Proof.
  induction s as [|c s IH]; [done|]. cbn.
  destruct (str_space c) eqn:Hc; cbn; [done|]. by rewrite Hc.
Qed.

Lemma blank_rev s : blank (rev s) = blank s.
Proof.
  induction s as [|c s IH]; [done|]. unfold blank in *. cbn.
  rewrite forallb_app, IH. cbn. by rewrite andb_true_r, andb_comm.
Qed.

Lemma blank_strip s : blank (strip s) = blank s.
Proof.
  unfold strip, rstrip. by rewrite blank_rev, blank_lstrip, blank_rev, blank_lstrip.
Qed.

Lemma lstrip_blank s : blank s = true -> lstrip s = [].
Proof.
  induction s as [|c s IH]; [done|]. cbn.
  destruct (str_space c); cbn; [done|discriminate].
Qed.

Lemma strip_nil_iff s : strip s = [] <-> blank s = true.
Proof.
  split.
  - intros H. by rewrite <- blank_strip, H.
  - intros H. unfold strip, rstrip. by rewrite (lstrip_blank s H).
Qed.

Lemma check_is_valid_blank s : check_is_valid s = negb (blank s).
Proof.
  unfold check_is_valid. destruct (blank s) eqn:Hb.
  - apply strip_nil_iff in Hb. by rewrite Hb.
  - destruct (strip s) eqn:Hs; [|done].
    apply strip_nil_iff in Hs. congruence.
Qed.

Lemma check_is_valid_setting environ key dflt :
  check_is_valid (setting environ key dflt)
  = negb (blank (default dflt (environ key))).
Proof. unfold setting. by rewrite check_is_valid_blank, blank_strip. Qed.

(** X23: with the [.env] file present, [Config()] is accepted exactly when
    [DOMAIN] is not blank and either the mailbox (the part of the stripped
    [TEMP_MAIL] before the first [@]) is not ["null"] and not blank, or it is
    ["null"] and each of [IMAP_SERVER], [IMAP_PORT], [IMAP_USER], [IMAP_PASS]
    is neither blank nor ["null"] once stripped, and [IMAP_DIR] (["inbox"]
    when unset) is not blank. *)
Theorem Config_init_accepts_iff environ :
  (exists c, Config_init true environ = inl c) <->
    blank (default [] (environ (str "DOMAIN"))) = false /\
    if bool_decide (mailbox environ = str "null") then
      Forall (fun key => blank (default [] (environ key)) = false /\
                         setting environ key [] <> str "null")
        [str "IMAP_SERVER"; str "IMAP_PORT"; str "IMAP_USER"; str "IMAP_PASS"] /\
      blank (default (str "inbox") (environ (str "IMAP_DIR"))) = false
    else blank (mailbox environ) = false.
Proof.
  unfold Config_init, check_config. cbn [negb domain temp_mail imap].
  fold (mailbox environ).
  rewrite check_is_valid_setting, negb_involutive.
  destruct (blank (default [] (environ (str "DOMAIN")))).
  { split; [by intros [? ?]|by intros [? _]]. }
  destruct (bool_decide (mailbox environ = str "null")) eqn:Hm.
  - cbn [negb check_imap_configs imap_server imap_port imap_user imap_pass imap_dir].
    rewrite !check_is_valid_setting, !negb_involutive.
    rewrite !Forall_cons, Forall_nil.
    repeat match goal with
    | |- context [bool_decide (setting environ ?k [] = str "null")] =>
        destruct (bool_decide_reflect (setting environ k [] = str "null"));
        [split; [by intros [? ?]|intros (_ & ? & _); tauto]|]
    | |- context [blank (default [] (environ ?k))] =>
        destruct (blank (default [] (environ k)));
        [split; [by intros [? ?]|intros (_ & ? & _); intuition discriminate]|]
    end.
    cbn [orb].
    destruct (blank (default (str "inbox") (environ (str "IMAP_DIR")))) eqn:Hd.
    + assert (Hnn : setting environ (str "IMAP_DIR") (str "inbox") <> str "null").
      { intros Heq. pose proof (blank_strip (default (str "inbox") (environ (str "IMAP_DIR")))) as Hb.
        fold (setting environ (str "IMAP_DIR") (str "inbox")) in Hb.
        rewrite Heq, Hd in Hb. vm_compute in Hb. discriminate. }
      rewrite (bool_decide_eq_false_2 _ Hnn). cbn.
      split; [by intros [? ?]|intros (_ & _ & ?); discriminate].
    + rewrite andb_false_r. split; [|by eexists]. intros _. tauto.
  - cbn [negb]. rewrite check_is_valid_blank.
    destruct (blank (mailbox environ)); cbn.
    + split; [by intros [? ?]|intros (_ & ?); discriminate].
    + split; [done|by eexists].
Qed.

Lemma head_split_no_sep sep s : sep ∉ default [] (head (split sep s)).
Proof.
  induction s as [|c s IH]; cbn; [apply not_elem_of_nil|].
  destruct (Ascii.eqb_spec c sep) as [->|Hne]; cbn; [apply not_elem_of_nil|].
  destruct (split sep s) as [|piece pieces]; cbn in *.
  - intros [->|[]%elem_of_nil]%elem_of_cons. done.
  - intros [->|?]%elem_of_cons; done.
Qed.

Lemma check_imap_configs_ok fields :
  check_imap_configs fields = None ->
  Forall (fun kv => kv.2 <> [] /\ kv.2 <> str "null") fields.
Proof.
  induction fields as [|[key value] fields IH]; cbn [check_imap_configs];
    [by constructor|].
  destruct (bool_decide_reflect (value = str "null")); cbn [orb]; [done|].
  rewrite check_is_valid_blank, negb_involutive.
  destruct (blank value) eqn:Hb; [done|]. intros H. constructor; [|by apply IH].
  cbn. split; [|done]. by intros ->.
Qed.

(** X24: in every configuration [Config()] returns, the domain is not
    empty, the mailbox holds no [@], [get_imap] answers [False] exactly when
    the mailbox is not ["null"] (and then the mailbox is not empty), and the
    settings it returns otherwise have a server, port, user and password that
    are neither empty nor ["null"] and a directory that is not empty. *)
Theorem Config_init_returns dotenv_exists environ c :
  Config_init dotenv_exists environ = inl c ->
  domain c <> [] /\
  ("@" ∉ temp_mail c) /\
  (get_imap c = None <-> temp_mail c <> str "null") /\
  (get_imap c = None -> temp_mail c <> []) /\
  (forall i, get_imap c = Some i ->
     Forall (fun v => v <> [] /\ v <> str "null")
       [imap_server i; imap_port i; imap_user i; imap_pass i] /\
     imap_dir i <> []).
Proof.
  unfold Config_init. destruct dotenv_exists; cbn [negb]; [|done].
  fold (mailbox environ).
  destruct (check_config _) eqn:Hc; [done|]. intros [= <-].
  unfold get_imap. cbn [domain temp_mail imap].
  unfold check_config in Hc. cbn [domain temp_mail imap] in Hc.
  rewrite check_is_valid_blank in Hc.
  destruct (blank (setting environ (str "DOMAIN") [])) eqn:Hd; [done|].
  cbn [negb] in Hc.
  split; [by intros Heq; rewrite Heq in Hd|].
  split; [apply head_split_no_sep|].
  destruct (bool_decide_reflect (mailbox environ = str "null")) as [Hm|Hm];
    cbn [negb] in Hc.
  - split; [split; [done|by intros []]|]. split; [done|].
    intros i [= <-].
    destruct (check_imap_configs _) eqn:Hi; [done|].
    apply check_imap_configs_ok in Hi.
    cbn [imap_server imap_port imap_user imap_pass imap_dir] in *.
    split.
    + rewrite !Forall_cons in Hi. cbn in Hi.
      destruct Hi as ([? ?] & [? ?] & [? ?] & [? ?] & _).
      repeat constructor; done.
    + intros Heq. rewrite Heq in Hc. vm_compute in Hc. discriminate.
  - rewrite check_is_valid_blank in Hc.
    destruct (blank (mailbox environ)) eqn:Hb; [done|].
    split; [done|]. split; [|done].
    intros _ Heq. by rewrite Heq in Hb.
Qed.

Lemma Config_init_returns_witness :
  let environ :=
    environ_of [("DOMAIN", " example.org "); ("TEMP_MAIL", "null@mailto.plus");
                ("IMAP_SERVER", "imap.example.org"); ("IMAP_PORT", "993");
                ("IMAP_USER", "me"); ("IMAP_PASS", "secret")]%string in
  let i := Imap (str "imap.example.org") (str "993") (str "me") (str "secret")
             (str "inbox") in
  let c := Config (str "null") [] [] (str "example.org") (Some i) in
  Config_init true environ = inl c /\
  domain c <> [] /\
  ("@" ∉ temp_mail c) /\
  (get_imap c = None <-> temp_mail c <> str "null") /\
  (get_imap c = None -> temp_mail c <> []) /\
  (forall i, get_imap c = Some i ->
     Forall (fun v => v <> [] /\ v <> str "null")
       [imap_server i; imap_port i; imap_user i; imap_pass i] /\
     imap_dir i <> []).
Proof.
  intros environ i c.
  split; [by vm_compute|].
  apply (Config_init_returns true environ c). by vm_compute.
Defined.

(** ** The locator on each platform *)

Lemma posix_paths h base :
  os_name h <> str "nt" ->
  os_path_join h base (str "package.json") = posix_join base (str "package.json") /\
  os_path_join h base (str "out/main.js") = posix_join base (str "out/main.js").
Proof.
  intros Hnt. unfold os_path_join. by rewrite (bool_decide_eq_false_2 _ Hnt).
Qed.

(** X25: on Windows the locator answers with the two paths under the base
    directory whether or not that directory exists; it raises ([EOFError])
    only when the directory is missing and standard input is closed, and it
    never touches the disk.  The base is [USERAPPPATH] when that is set and
    not empty, and [LOCALAPPDATA\Programs\Cursor\resources\app] otherwise. *)
Theorem get_cursor_paths_windows h w :
  platform_system h = str "Windows" ->
  let base := windows_base h in
  let paths := (os_path_join h base (str "package.json"),
                os_path_join h base (str "out/main.js")) in
  (get_cursor_paths h w).1
    = (if negb (dir_exists h base) && stdin_eof h
       then inr (Exception EOFError) else inl paths) /\
  disk (get_cursor_paths h w).2 = disk w /\
  tmp (get_cursor_paths h w).2 = tmp w /\
  (forall c s, getenv h (str "USERAPPPATH") = Some (c :: s) -> base = c :: s) /\
  (getenv h (str "USERAPPPATH") = None \/ getenv h (str "USERAPPPATH") = Some [] ->
   base = fold_left (os_path_join h)
            [str "Programs"; str "Cursor"; str "resources"; str "app"]
            (default [] (getenv h (str "LOCALAPPDATA")))).
Proof.
  intros Hsys base paths. unfold get_cursor_paths. rewrite Hsys.
  change (negb (bool_decide (str "Windows" ∈ [str "Darwin"; str "Windows"; str "Linux"])))
    with false.
  change (bool_decide (str "Windows" = str "Linux")) with false.
  change (bool_decide (str "Windows" = str "Darwin")) with false.
  change (bool_decide (str "Windows" = str "Windows")) with true.
  cbn [negb]. fold base. fsunfold.
  split; [|split; [|split; [|split]]].
  - destruct (dir_exists h base), (stdin_eof h); reflexivity.
  - destruct (dir_exists h base), (stdin_eof h); reflexivity.
  - destruct (dir_exists h base), (stdin_eof h); reflexivity.
  - intros c s Henv. subst base. unfold windows_base. by rewrite Henv.
  - intros [Henv|Henv]; subst base; unfold windows_base; by rewrite Henv.
Qed.

Lemma get_cursor_paths_windows_witness :
  (get_cursor_paths (windows_host true) (scenario_world (str "0.46.1") (str "x"))).1
  = inr (Exception EOFError) /\
  (get_cursor_paths (windows_host false) (scenario_world (str "0.46.1") (str "x"))).1
  = inl (str "D:\cursor\app\package.json", str "D:\cursor\app\out/main.js").
Proof.
  split.
  - apply (get_cursor_paths_windows (windows_host true)
             (scenario_world (str "0.46.1") (str "x"))). reflexivity.
  - apply (get_cursor_paths_windows (windows_host false)
             (scenario_world (str "0.46.1") (str "x"))). reflexivity.
Defined.

(** X26: on macOS the locator never probes the disk, so a missing
    installation is reported by the requirement check: in either mode the
    run logs that the manifest under [/Applications/Cursor.app] does not
    exist and ends in [sys.exit(1)], with the disk as it was. *)
Theorem darwin_run_without_install h restore_mode w :
  platform_system h = str "Darwin" ->
  os_name h <> str "nt" ->
  disk w !! str "/Applications/Cursor.app/Contents/Resources/app/package.json" = None ->
  patch_cursor_get_machine_id h restore_mode w
  = (inr (SystemExit 1),
     more_log w
       [(INFO, Starting_script_execution);
        (ERROR, File_does_not_exist
           (str "/Applications/Cursor.app/Contents/Resources/app/package.json"))]).
Proof.
  intros Hsys Hnt Hpkg.
  assert (Hloc : forall w', get_cursor_paths h w'
    = (inl (str "/Applications/Cursor.app/Contents/Resources/app/package.json",
            str "/Applications/Cursor.app/Contents/Resources/app/out/main.js"), w')).
  { intros w'. unfold get_cursor_paths. rewrite Hsys.
    change (negb (bool_decide (str "Darwin" ∈ [str "Darwin"; str "Windows"; str "Linux"])))
      with false.
    change (bool_decide (str "Darwin" = str "Linux")) with false.
    change (bool_decide (str "Darwin" = str "Darwin")) with true.
    change (bool_decide (str "Darwin" = str "Windows")) with false.
    cbv beta iota zeta.
    destruct (posix_paths h darwin_base Hnt) as [-> ->]. reflexivity. }
  unfold patch_cursor_get_machine_id. munfold. rewrite Hloc.
  rewrite check_files_two. cbn [disk add_log]. rewrite Hpkg. cbn.
  unfold add_log, more_log. cbn. by rewrite <- ?app_assoc.
Qed.

Lemma darwin_run_without_install_witness :
  patch_cursor_get_machine_id darwin_host true (scenario_world (str "0.46.1") (str "x"))
  = (inr (SystemExit 1),
     more_log (scenario_world (str "0.46.1") (str "x"))
       [(INFO, Starting_script_execution);
        (ERROR, File_does_not_exist
           (str "/Applications/Cursor.app/Contents/Resources/app/package.json"))]).
Proof.
  apply (darwin_run_without_install darwin_host true
           (scenario_world (str "0.46.1") (str "x"))).
  - reflexivity.
  - by vm_compute.
  - by vm_compute.
Defined.

(** X27: on Linux, when neither candidate directory holds a manifest, the
    run in either mode logs the locator's error and ends in [sys.exit(1)]
    with the disk as it was; whether [out/main.js] exists is never looked
    at. *)
Theorem linux_run_without_install h restore_mode w :
  platform_system h = str "Linux" ->
  os_name h <> str "nt" ->
  disk w !! str "/opt/Cursor/resources/app/package.json" = None ->
  disk w !! str "/usr/share/cursor/resources/app/package.json" = None ->
  patch_cursor_get_machine_id h restore_mode w
  = (inr (SystemExit 1),
     more_log w
       [(INFO, Starting_script_execution);
        (ERROR, Error_occurred_during_execution
           (OSError (str "Cursor installation path not found on Linux system")))]).
Proof.
  intros Hsys Hnt Hopt Husr.
  assert (Hloc : forall w', disk w' = disk w -> get_cursor_paths h w'
    = (inr (Exception
         (OSError (str "Cursor installation path not found on Linux system"))), w')).
  { intros w' Hw'. unfold get_cursor_paths. rewrite Hsys.
    change (negb (bool_decide (str "Linux" ∈ [str "Darwin"; str "Windows"; str "Linux"])))
      with false.
    change (bool_decide (str "Linux" = str "Linux")) with true. cbn [negb].
    unfold linux_bases. cbn [search_bases]. fsunfold.
    destruct (posix_paths h (str "/opt/Cursor/resources/app") Hnt) as [-> _].
    destruct (posix_paths h (str "/usr/share/cursor/resources/app") Hnt) as [-> _].
    change (posix_join (str "/opt/Cursor/resources/app") (str "package.json"))
      with (str "/opt/Cursor/resources/app/package.json").
    change (posix_join (str "/usr/share/cursor/resources/app") (str "package.json"))
      with (str "/usr/share/cursor/resources/app/package.json").
    rewrite Hw', Hopt. cbn. by rewrite Hw', Husr. }
  unfold patch_cursor_get_machine_id, on_exception. munfold.
  rewrite Hloc by reflexivity.
  unfold add_log, more_log. cbn. by rewrite <- ?app_assoc.
Qed.

Lemma linux_run_without_install_witness :
  patch_cursor_get_machine_id linux_host false (World ∅ None [])
  = (inr (SystemExit 1),
     more_log (World ∅ None [])
       [(INFO, Starting_script_execution);
        (ERROR, Error_occurred_during_execution
           (OSError (str "Cursor installation path not found on Linux system")))]).
Proof.
  apply (linux_run_without_install linux_host false (World ∅ None [])).
  - reflexivity.
  - by vm_compute.
  - reflexivity.
  - reflexivity.
Defined.

(** X28: on a system other than macOS, Windows and Linux the run in either
    mode logs that the system is unsupported, naming it, and ends in
    [sys.exit(1)] with the disk as it was. *)
Theorem unsupported_system_run h restore_mode w :
  platform_system h ∉ [str "Darwin"; str "Windows"; str "Linux"] ->
  patch_cursor_get_machine_id h restore_mode w
  = (inr (SystemExit 1),
     more_log w
       [(INFO, Starting_script_execution);
        (ERROR, Error_occurred_during_execution
           (OSError (str "Unsupported operating system: " ++ platform_system h)))]).
Proof.
  intros Hsys.
  unfold patch_cursor_get_machine_id, on_exception, get_cursor_paths.
  rewrite (bool_decide_eq_false_2 _ Hsys). munfold. cbn.
  unfold add_log, more_log. cbn. by rewrite <- ?app_assoc.
Qed.

Lemma unsupported_system_run_witness :
  patch_cursor_get_machine_id freebsd_host true (scenario_world (str "0.46.1") (str "x"))
  = (inr (SystemExit 1),
     more_log (scenario_world (str "0.46.1") (str "x"))
       [(INFO, Starting_script_execution);
        (ERROR, Error_occurred_during_execution
           (OSError (str "Unsupported operating system: FreeBSD")))]).
Proof.
  apply (unsupported_system_run freebsd_host true
           (scenario_world (str "0.46.1") (str "x"))).
  apply (bool_decide_eq_false_1 _). vm_compute. reflexivity.
Defined.
